(** * Auction ticket cog: amount parsing, item cache, validation and ticket lifecycle

    A shallow embedding of [cogs/auctionpannel.py].  Python integers are [Z],
    Python floats are binary64 values with round-to-nearest-even written out
    over [Z], text is [string] (ASCII), dictionaries are [gmap]s, and the
    module-level globals together with the chat platform and the clock form
    one explicit state record that every handler threads through. *)

From Stdlib Require Import ZArith QArith.QArith_base String Ascii List Lia Bool.
From Stdlib Require DecimalString DecimalPos DecimalZ.
From Corelib Require SpecFloat.
From stdpp Require Import gmap strings list.

Local Open Scope Z_scope.

(** ** Python exceptions and results *)

Inductive exn :=
  | ValueError
  | OverflowError
  | AttributeError
  | TypeError
  | KeyError
  | RequestException
  | HTTPException.

Inductive result (A : Type) :=
  | Ok (a : A)
  | Raise (e : exn).
Arguments Ok {A} a.
Arguments Raise {A} e.

Definition bind {A B} (r : result A) (k : A -> result B) : result B :=
  match r with
  | Ok a => k a
  | Raise e => Raise e
  end.

Notation "'let*' x ':=' r 'in' k" := (bind r (fun x => k))
  (at level 10, x name, r at level 100, k at level 200).

(** ** Binary64 arithmetic

    [Finite m e] is the double of value [m * 2^e]; every operation rounds an
    exact value to 53 significant bits, ties to even, with the subnormal
    quantum [2^-1074] and overflow to infinity at [2^1024].  The sign of a zero
    is not kept: no operation of the program observes it. *)

Module Float.

Inductive float :=
  | Finite (m e : Z)
  | Inf (negative : bool)
  | NaN.

Definition prec : Z := 53.
Definition emin : Z := -1074.
Definition emax : Z := 1024.

(** Nearest integer to [N / D], ties to even ([0 <= N], [0 < D]). *)
Definition rne (N D : Z) : Z :=
  let q := N / D in
  let r := N mod D in
  if 2 * r <? D then q
  else if D <? 2 * r then q + 1
  else if Z.even q then q else q + 1.

(** A rounded magnitude [m * 2^e] that reached [2^1024] is infinite. *)
Definition overflows (m e : Z) : bool :=
  (0 <? m) && ((emax <? e) || ((0 <=? e) && (2 ^ emax <=? m * 2 ^ e))).

Definition pack (negative : bool) (m e : Z) : float :=
  if overflows m e then Inf negative
  else Finite (if negative then - m else m) e.

(** Round the exact dyadic value [P * 2^E]. *)
Definition round_dyadic (P E : Z) : float :=
  let a := Z.abs P in
  let k := Z.max 0 (Z.max (Z.log2 a + 1 - prec) (emin - E)) in
  pack (P <? 0) (rne a (2 ^ k)) (E + k).

(** [floor (log2 (num / den))] for [0 < num], [0 < den]. *)
Definition ilog2_ratio (num den : Z) : Z :=
  let l := Z.log2 num - Z.log2 den in
  let fits := if 0 <=? l then den * 2 ^ l <=? num else den <=? num * 2 ^ (- l) in
  if fits then l else l - 1.

(** Round the exact rational value [num / den] ([0 < den]). *)
Definition round_ratio (num den : Z) : float :=
  let a := Z.abs num in
  if a =? 0 then Finite 0 0
  else
    let e := Z.max (ilog2_ratio a den + 1 - prec) emin in
    let m := if 0 <=? e then rne a (den * 2 ^ e) else rne (a * 2 ^ (- e)) den in
    pack (num <? 0) m e.

(** [float(n)] inside [n * x]: an integer beyond the double range raises. *)
Definition of_int (n : Z) : result float :=
  match round_dyadic n 0 with
  | Finite m e => Ok (Finite m e)
  | _ => Raise OverflowError
  end.

Definition is_zero (x : float) : bool :=
  match x with Finite 0 _ => true | _ => false end.

Definition is_negative (x : float) : bool :=
  match x with
  | Finite m _ => m <? 0
  | Inf s => s
  | NaN => false
  end.

Definition mul (x y : float) : float :=
  match x, y with
  | Finite m1 e1, Finite m2 e2 => round_dyadic (m1 * m2) (e1 + e2)
  | NaN, _ | _, NaN => NaN
  | Inf s, z | z, Inf s =>
      if is_zero z then NaN else Inf (xorb s (is_negative z))
  end.

(** [int(x)]: truncation toward zero. *)
Definition to_int (x : float) : result Z :=
  match x with
  | Finite m e => Ok (if 0 <=? e then m * 2 ^ e else Z.quot m (2 ^ (- e)))
  | Inf _ => Raise OverflowError
  | NaN => Raise ValueError
  end.

(** [n * x] for a Python [int] [n] and a [float] [x]. *)
Definition int_mul (n : Z) (x : float) : result float :=
  let* f := of_int n in Ok (mul f x).

(** [x * n] for a [float] [x] and a Python [int] [n]. *)
Definition mul_int (x : float) (n : Z) : result float :=
  let* f := of_int n in Ok (mul x f).

(** The literal [0.30]. *)
Definition c_0_30 : float := round_ratio 30 100.

(** The significand of [0.30]: [0.30 = M * 2^-54]. *)
Definition M : Z := 5404319552844595.

(** The values of the model inside the IEEE 754 specification of the
    Rocq core library, to compare the two on examples. *)
Definition to_spec (x : float) : SpecFloat.spec_float :=
  match x with
  | Finite m e => SpecFloat.binary_normalize 53 1024 m e false
  | Inf s => SpecFloat.S754_infinity s
  | NaN => SpecFloat.S754_nan
  end.

Definition spec_eqb (x y : SpecFloat.spec_float) : bool :=
  match x, y with
  | SpecFloat.S754_finite s m e, SpecFloat.S754_finite s' m' e' =>
      Bool.eqb s s' && Pos.eqb m m' && Z.eqb e e'
  | SpecFloat.S754_zero _, SpecFloat.S754_zero _ => true
  | SpecFloat.S754_infinity s, SpecFloat.S754_infinity s' => Bool.eqb s s'
  | SpecFloat.S754_nan, SpecFloat.S754_nan => true
  | _, _ => false
  end.

(** [3 / 10] and [float(n) * (3 / 10)] as that specification rounds them. *)
Definition spec_three_tenths : SpecFloat.spec_float :=
  SpecFloat.SFdiv 53 1024 (SpecFloat.binary_normalize 53 1024 3 0 false)
                  (SpecFloat.binary_normalize 53 1024 10 0 false).

Definition agrees_with_spec (n : Z) : bool :=
  match int_mul n c_0_30 with
  | Ok x =>
      spec_eqb (to_spec x)
        (SpecFloat.SFmul 53 1024 (SpecFloat.binary_normalize 53 1024 n 0 false)
                         spec_three_tenths)
  | Raise _ => false
  end.

End Float.

(** ** Text operations of [str] used by the cog (ASCII text) *)

Module Str.

Definition code (c : ascii) : Z := Z.of_N (N_of_ascii c).

(** [str.isspace] on one ASCII character: TAB..CR, FS..US and the space. *)
Definition is_space (c : ascii) : bool :=
  ((9 <=? code c) && (code c <=? 13)) || ((28 <=? code c) && (code c <=? 32)).

Definition lower_char (c : ascii) : ascii :=
  if (65 <=? code c) && (code c <=? 90)
  then ascii_of_N (N_of_ascii c + 32) else c.

(** [s.lower()] *)
Fixpoint lower (s : string) : string :=
  match s with
  | EmptyString => EmptyString
  | String c r => String (lower_char c) (lower r)
  end.

(** [s.replace(c, empty)]: every occurrence of the one-character [c] is deleted *)
Fixpoint remove_char (c : ascii) (s : string) : string :=
  match s with
  | EmptyString => EmptyString
  | String d r => if Ascii.eqb d c then remove_char c r else String d (remove_char c r)
  end.

Fixpoint lstrip (s : string) : string :=
  match s with
  | EmptyString => EmptyString
  | String c r => if is_space c then lstrip r else s
  end.

Fixpoint rstrip (s : string) : string :=
  match s with
  | EmptyString => EmptyString
  | String c r =>
      match rstrip r with
      | EmptyString => if is_space c then EmptyString else String c EmptyString
      | t => String c t
      end
  end.

(** [s.strip()] *)
Definition strip (s : string) : string := lstrip (rstrip s).

(** [s.endswith(c)] for a one-character [c] *)
Fixpoint endswith (s : string) (c : ascii) : bool :=
  match s with
  | EmptyString => false
  | String d EmptyString => Ascii.eqb d c
  | String _ r => endswith r c
  end.

(** [s[:-1]] *)
Fixpoint drop_last (s : string) : string :=
  match s with
  | EmptyString => EmptyString
  | String _ EmptyString => EmptyString
  | String c r => String c (drop_last r)
  end.

(** [c in s] for a one-character [c] *)
Fixpoint contains (c : ascii) (s : string) : bool :=
  match s with
  | EmptyString => false
  | String d r => Ascii.eqb d c || contains c r
  end.

Definition digit_val (c : ascii) : option Z :=
  if (48 <=? code c) && (code c <=? 57) then Some (code c - 48) else None.

(** A maximal run of decimal digits: its value so far, its length and
    the rest of the text. *)
Fixpoint digits (s : string) (acc : Z) (len : Z) : Z * Z * string :=
  match s with
  | EmptyString => (acc, len, s)
  | String c r =>
      match digit_val c with
      | Some d => digits r (10 * acc + d) (len + 1)
      | None => (acc, len, s)
      end
  end.

(** The white space that [int] and [float] skip around an ASCII literal:
    TAB..CR and the space.  They do not skip the separators FS..US that
    [str.strip] removes besides. *)
Definition is_literal_space (c : ascii) : bool :=
  ((9 <=? code c) && (code c <=? 13)) || (code c =? 32).

Fixpoint skip_left (s : string) : string :=
  match s with
  | EmptyString => EmptyString
  | String c r => if is_literal_space c then skip_left r else s
  end.

Fixpoint skip_right (s : string) : string :=
  match s with
  | EmptyString => EmptyString
  | String c r =>
      match skip_right r with
      | EmptyString => if is_literal_space c then EmptyString else String c EmptyString
      | t => String c t
      end
  end.

Definition skip_spaces (s : string) : string := skip_left (skip_right s).

Definition sign (s : string) : bool * string :=
  match s with
  | String "-"%char r => (true, r)
  | String "+"%char r => (false, r)
  | _ => (false, s)
  end.

(** The digits of an [int] literal: single underscores may separate
    digits. *)
Fixpoint int_digits (s : string) (acc : Z) (after_digit : bool) : option Z :=
  match s with
  | EmptyString => if after_digit then Some acc else None
  | String c r =>
      match digit_val c with
      | Some d => int_digits r (10 * acc + d) true
      | None =>
          if Ascii.eqb c "_"%char && after_digit then int_digits r acc false
          else None
      end
  end.

(** The number of decimal digits in a text. *)
Fixpoint count_digits (s : string) : Z :=
  match s with
  | EmptyString => 0
  | String c r =>
      match digit_val c with
      | Some _ => 1 + count_digits r
      | None => count_digits r
      end
  end.

(** [sys.get_int_max_str_digits()]: CPython converts between text and
    [int] only up to this many digits, in both directions. *)
Definition int_max_str_digits : Z := 4300.

(** [int(s)] in base 10: surrounding white space, an optional sign, then
    the digits, leading zeros included in the count of at most 4300. *)
Definition int_of_str (s : string) : result Z :=
  let '(negative, body) := sign (skip_spaces s) in
  match int_digits body 0 false with
  | Some n =>
      if int_max_str_digits <? count_digits body then Raise ValueError
      else Ok (if negative then - n else n)
  | None => Raise ValueError
  end.

(** [str(n)], [format(n, ",")] and [json.dump] of an [int] [n] raise
    [ValueError] unless [n] has at most 4300 digits. *)
Definition has_text (n : Z) : bool := Z.abs n <? 10 ^ int_max_str_digits.

(** The optional exponent part [e[+-]digits] of a float literal. *)
Definition exponent (s : string) : option Z :=
  match s with
  | EmptyString => Some 0
  | String c r =>
      if Ascii.eqb c "e"%char || Ascii.eqb c "E"%char then
        let '(negative, body) := sign r in
        match digits body 0 0 with
        | (x, len, EmptyString) =>
            if 0 <? len then Some (if negative then - x else x) else None
        | _ => None
        end
      else None
  end.

(** [float(s)] on a decimal literal: surrounding white space, an optional
    sign, digits with an optional point (at least one digit), an optional
    exponent; the value is rounded correctly to binary64.  [parse_amount]
    calls [float] only on text that holds a point and no underscore, which
    leaves out the spellings [inf], [infinity] and [nan] and the digit
    grouping that [float] accepts besides. *)
Definition float_of_str (s : string) : result Float.float :=
  let '(negative, body) := sign (skip_spaces s) in
  let '(ip, ilen, rest) := digits body 0 0 in
  let '(mant, flen, rest') :=
    match rest with
    | String "."%char r => let '(m, l, r') := digits r ip 0 in (m, l, r')
    | _ => (ip, 0, rest)
    end in
  if 0 <? ilen + flen then
    match exponent rest' with
    | Some x =>
        let d := if negative then - mant else mant in
        let p := x - flen in
        Ok (if 0 <=? p then Float.round_ratio (d * 10 ^ p) 1
            else Float.round_ratio d (10 ^ (- p)))
    | None => Raise ValueError
    end
  else Raise ValueError.

End Str.

(** ** Numeric parsing: [parse_amount] *)

Definition parse_amount (value_str : string) : result Z :=
  let val := Str.strip (Str.remove_char "_"%char (Str.remove_char ","%char (Str.lower value_str))) in
  let '(multiplier, val) :=
    if Str.endswith val "m"%char then (1000000, Str.drop_last val)
    else if Str.endswith val "k"%char then (1000, Str.drop_last val)
    else if Str.endswith val "b"%char then (1000000000, Str.drop_last val)
    else (1, val) in
  if Str.contains "."%char val then
    let* number := Str.float_of_str val in
    let* product := Float.mul_int number multiplier in
    Float.to_int product
  else
    let* number := Str.int_of_str val in
    Ok (number * multiplier).

(** ** Data model *)

(** One entry of the catalog: [{"name": ..., "value": ..., "attachment": ...}].
    [value] and [attachment] are read with [.get], so they may be absent. *)
Module Item.
Record t := mk {
  name : string;
  value : option Z;
  attachment : option string;
}.
End Item.

(** One element of a list the catalog API delivered.  Nothing checks the
    elements when the list is taken over, so the snapshot may hold
    elements that are no catalog entries: a JSON value that is no object
    (a number, say), or an object without a ["name"]. *)
Inductive json_entry :=
  | Entry (item : Item.t)
  | NotADict
  | Nameless.

(** One entry of [auction_tickets], keyed by the channel id. *)
Module Ticket.
Record t := mk {
  ticket_id : Z;
  guild_id : Z;
  user_id : Z;
  item_name : string;
  attachment : option string;
  value : Z;
  quantity : Z;
  starting_bid : Z;
}.

Definition set_starting_bid (b : Z) (x : t) : t :=
  mk (ticket_id x) (guild_id x) (user_id x) (item_name x) (attachment x)
     (value x) (quantity x) b.
End Ticket.

(** A guild configuration dictionary.  [ticket_counter] is read with
    [.get("ticket_counter", 0)], so it may be absent. *)
Module Config.
Record t := mk {
  category_id : option Z;
  staff_roles : list Z;
  ticket_counter : option Z;
}.

(** [{"category_id": None, "staff_roles": [], "ticket_counter": 0}] *)
Definition default : t := mk None [] (Some 0).

Definition set_ticket_counter (n : Z) (c : t) : t :=
  mk (category_id c) (staff_roles c) (Some n).
Definition set_category_id (k : Z) (c : t) : t :=
  mk (Some k) (staff_roles c) (ticket_counter c).
Definition add_staff_role (r : Z) (c : t) : t :=
  mk (category_id c) (staff_roles c ++ [r]) (ticket_counter c).
End Config.

#[global] Instance config_inhabited : Inhabited Config.t := populate Config.default.

(** Configuration dictionaries are shared Python objects: a panel view and
    every creation form built from it hold a reference to one dictionary,
    and [guild_configs] holds references too.  References are heap
    locations. *)
Definition loc := positive.

Record Role := { role_id : Z; manage_channels : bool }.

Record Member := {
  id : Z;
  roles : list Role;
  administrator : bool;       (* guild_permissions.administrator *)
}.

Record Interaction := {
  guild_id : Z;
  channel_id : Z;
  user : Member;
}.

(** The module-level globals, the JSON files they are saved to, and what
    the cog sees of the platform: the live channels, the sleeping
    [schedule_channel_deletion] tasks (channel and wake-up time) and the
    clock. *)
Record State := mkState {
  heap : gmap loc Config.t;
  next_loc : loc;
  guild_configs : gmap Z loc;
  auction_tickets : gmap Z Ticket.t;
  cached_items : list json_entry;
  config_file : gmap Z Config.t;
  tickets_file : gmap Z Ticket.t;
  items_file : list json_entry;
  channels : gset Z;
  timers : list (Z * Z);
  now : Z;
}.

Definition with_heap (h : gmap loc Config.t) (n : loc) (s : State) : State :=
  mkState h n (guild_configs s) (auction_tickets s) (cached_items s)
          (config_file s) (tickets_file s) (items_file s)
          (channels s) (timers s) (now s).

Definition with_guild_configs (g : gmap Z loc) (s : State) : State :=
  mkState (heap s) (next_loc s) g (auction_tickets s) (cached_items s)
          (config_file s) (tickets_file s) (items_file s)
          (channels s) (timers s) (now s).

Definition with_auction_tickets (t : gmap Z Ticket.t) (s : State) : State :=
  mkState (heap s) (next_loc s) (guild_configs s) t (cached_items s)
          (config_file s) (tickets_file s) (items_file s)
          (channels s) (timers s) (now s).

Definition with_cached_items (l : list json_entry) (s : State) : State :=
  mkState (heap s) (next_loc s) (guild_configs s) (auction_tickets s) l
          (config_file s) (tickets_file s) (items_file s)
          (channels s) (timers s) (now s).

Definition with_channels (c : gset Z) (s : State) : State :=
  mkState (heap s) (next_loc s) (guild_configs s) (auction_tickets s) (cached_items s)
          (config_file s) (tickets_file s) (items_file s)
          c (timers s) (now s).

Definition with_timers (l : list (Z * Z)) (s : State) : State :=
  mkState (heap s) (next_loc s) (guild_configs s) (auction_tickets s) (cached_items s)
          (config_file s) (tickets_file s) (items_file s)
          (channels s) l (now s).

Definition with_now (t : Z) (s : State) : State :=
  mkState (heap s) (next_loc s) (guild_configs s) (auction_tickets s) (cached_items s)
          (config_file s) (tickets_file s) (items_file s)
          (channels s) (timers s) t.

(** [save_json] opens the file and hands the whole value to [json.dump];
    whatever goes wrong there is logged and swallowed, so none of the
    three savers can raise.  The file fields hold the value that was last
    handed to [json.dump] for the file. *)
Definition save_configs (s : State) : State :=
  mkState (heap s) (next_loc s) (guild_configs s) (auction_tickets s) (cached_items s)
          ((fun l => heap s !!! l) <$> guild_configs s) (tickets_file s) (items_file s)
          (channels s) (timers s) (now s).

Definition save_tickets (s : State) : State :=
  mkState (heap s) (next_loc s) (guild_configs s) (auction_tickets s) (cached_items s)
          (config_file s) (auction_tickets s) (items_file s)
          (channels s) (timers s) (now s).

Definition save_items (s : State) : State :=
  mkState (heap s) (next_loc s) (guild_configs s) (auction_tickets s) (cached_items s)
          (config_file s) (tickets_file s) (cached_items s)
          (channels s) (timers s) (now s).

(** What a handler tells the caller. *)
Inductive response :=
  | InvalidAmount
  | ItemNotFound
  | InvalidItemValue
  | BelowMinimumWorth (total_worth : Z)
  | BidExceedsRatio (total_worth max_allowed bid : Z)
  | TicketCreated (channel : Z) (ticket_id : Z)
  | TicketNotFound
  | Unauthorized
  | BidUpdated (new_bid : Z)
  | TicketClosed
  | TicketCancelled
  | AdminOnly
  | PanelCreated
  | ModalSent
  | ConfigUpdated
  | CacheRefreshed.

(** ** API and caching logic *)

(** What the catalog request can come back with. *)
Inductive json_body :=
  | BodyList (items : list json_entry) (* data.get("body") is a list *)
  | BodyOther.

Inductive api_reply :=
  | TransportError                     (* requests.get raises *)
  | NotJson                            (* resp.json() raises *)
  | NotAnObject                        (* data has no .get *)
  | JsonObject (success : bool) (body : json_body).

(** The [try] block of [fetch_items_from_api]: [Ok None] when the block
    ends without returning. *)
Definition fetch_try (reply : api_reply) : result (option (list json_entry)) :=
  match reply with
  | TransportError => Raise RequestException
  | NotJson => Raise ValueError
  | NotAnObject => Raise AttributeError
  | JsonObject success body =>
      match success, body with
      | true, BodyList items => Ok (Some items)
      | _, _ => Ok None
      end
  end.

Definition fetch_items_from_api (reply : api_reply) : list json_entry :=
  match fetch_try reply with
  | Ok (Some items) => items
  | Ok None => []
  | Raise _ => []                      (* except Exception: log *)
  end.

Definition update_items_cache (reply : api_reply) (s : State) : State :=
  let new_items := fetch_items_from_api reply in
  match new_items with
  | _ :: _ => save_items (with_cached_items new_items s)
  | [] => s
  end.

Definition get_cached_items (s : State) : list json_entry := cached_items s.

(** ** Fuzzy item lookup *)

Section Fuzzy.

(** The scorer [rapidfuzz.fuzz.WRatio] (a library routine): a similarity
    of the query and a choice. *)
Variable WRatio : string -> string -> Q.

(** Modelled from the spec: [rapidfuzz.process.extractOne] is a routine of
    a third-party library.  It scores the choices in order and keeps the
    choice, score and index of the best one, replacing it only on a
    strictly higher score; without choices it gives nothing. *)
Fixpoint extractOne_loop (query : string) (choices : list string) (idx : nat)
    (best : option (string * Q * nat)) : option (string * Q * nat) :=
  match choices with
  | [] => best
  | choice :: rest =>
      let score := WRatio query choice in
      let best' :=
        match best with
        | Some (_, result_score, _) =>
            if Qle_bool score result_score then best
            else Some (choice, score, idx)
        | None => Some (choice, score, idx)
        end in
      extractOne_loop query rest (S idx) best'
  end.

Definition extractOne (query : string) (choices : list string)
    : option (string * Q * nat) :=
  extractOne_loop query choices 0%nat None.

(** [item["name"]] *)
Definition entry_name (item : json_entry) : result string :=
  match item with
  | Entry item => Ok (Item.name item)
  | NotADict => Raise TypeError
  | Nameless => Raise KeyError
  end.

(** [[item["name"] for item in items]]: the first element without a
    name ends the comprehension with its error. *)
Fixpoint names (items : list json_entry) : result (list string) :=
  match items with
  | [] => Ok []
  | item :: rest =>
      let* name := entry_name item in
      let* rest_names := names rest in
      Ok (name :: rest_names)
  end.

Definition fuzzy_search_item (query : string) (items : list json_entry) (threshold : Q)
    : result (option Item.t) :=
  match items with
  | [] => Ok None
  | _ =>
      let* item_names := names items in
      match extractOne query item_names with
      | Some (best_match, score, idx) =>
          if negb (String.eqb best_match EmptyString) && Qle_bool threshold score
          then
            (* [items[idx]]: here every element has a name *)
            match items !! idx with
            | Some (Entry item) => Ok (Some item)
            | _ => Ok None
            end
          else Ok None
      | None => Ok None
      end
  end.

End Fuzzy.

(** ** Validation arithmetic *)

(** [int(total_worth * 0.30)] *)
Definition max_allowed (total_worth : Z) : result Z :=
  let* product := Float.int_mul total_worth Float.c_0_30 in
  Float.to_int product.

(** ** Deferred channel deletion *)

(** [bot.loop.create_task(schedule_channel_deletion(channel, delay))]: the
    task sleeps for [delay] and then deletes the channel. *)
Definition create_task_schedule_channel_deletion (channel delay : Z) (s : State) : State :=
  with_timers (timers s ++ [(channel, now s + delay)]) s.

Definition due (t : Z) (timer : Z * Z) : bool := snd timer <=? t.

(** The clock moves on by [dt]; every task whose sleep is over deletes its
    channel (an error there is logged and swallowed). *)
Definition advance (dt : Z) (s : State) : State :=
  let t := now s + dt in
  let woken := filter (fun timer => due t timer = true) (timers s) in
  let asleep := filter (fun timer => due t timer = false) (timers s) in
  with_now t (with_timers asleep
    (with_channels (channels s ∖ list_to_set (map fst woken)) s)).

(** The owner-or-staff gate shared by the ticket handlers. *)
Definition is_owner (ticket : Ticket.t) (i : Interaction) : bool :=
  Ticket.user_id ticket =? id (user i).

Definition is_staff (i : Interaction) : bool :=
  existsb manage_channels (roles (user i)).

(** ** Ticket creation modal *)

Module AuctionCreateModal.

Record t := mk {
  guild_config : loc;
  item_name : string;
  quantity : string;
  starting_bid : string;
}.

(** The two amounts of the [try] block. *)
Definition parse_inputs (self : t) : result (Z * Z) :=
  let* quantity_val := parse_amount (Str.strip (quantity self)) in
  let* starting_bid_val := parse_amount (Str.strip (starting_bid self)) in
  Ok (quantity_val, starting_bid_val).

(** [platform] is the outcome of [guild.create_text_channel]: the id of
    the new channel, or the error the call raised. *)
Definition on_submit (WRatio : string -> string -> Q) (self : t) (i : Interaction)
    (platform : result Z) (s : State) : result response * State :=
  match parse_inputs self with
  | Raise ValueError => (Ok InvalidAmount, s)
  | Raise e => (Raise e, s)
  | Ok (quantity_val, starting_bid_val) =>
  let items := get_cached_items s in
  match fuzzy_search_item WRatio (Str.strip (item_name self)) items (65 # 1) with
  | Raise e => (Raise e, s)
  | Ok None => (Ok ItemNotFound, s)
  | Ok (Some matched_item) =>
  let value_each := default 0 (Item.value matched_item) in
  if value_each <=? 0 then (Ok InvalidItemValue, s) else
  let total_worth := value_each * quantity_val in
  if total_worth <? 10000000 then (Ok (BelowMinimumWorth total_worth), s) else
  match max_allowed total_worth with
  | Raise e => (Raise e, s)
  | Ok max_allowed =>
  if max_allowed <? starting_bid_val
  then (Ok (BidExceedsRatio total_worth max_allowed starting_bid_val), s) else
  let config := heap s !!! guild_config self in
  let current_ticket_num := default 0 (Config.ticket_counter config) + 1 in
  let s1 :=
    with_heap (<[guild_config self := Config.set_ticket_counter current_ticket_num config]>
                 (heap s)) (next_loc s) s in
  let s2 := with_guild_configs (<[guild_id i := guild_config self]> (guild_configs s1)) s1 in
  let s3 := save_configs s2 in
  match platform with
  | Raise e => (Raise e, s3)
  | Ok ticket_channel =>
  let s4 := with_channels ({[ticket_channel]} ∪ channels s3) s3 in
  let ticket :=
    Ticket.mk current_ticket_num (guild_id i) (id (user i)) (Item.name matched_item)
              (Item.attachment matched_item) value_each quantity_val starting_bid_val in
  let s5 := with_auction_tickets (<[ticket_channel := ticket]> (auction_tickets s4)) s4 in
  let s6 := save_tickets s5 in
  (Ok (TicketCreated ticket_channel current_ticket_num), s6)
  end end end end.

End AuctionCreateModal.

(** ** Ticket panel view *)

Module TicketPanelView.

Record t := mk { guild_config : loc }.

(** The button opens a creation form on the configuration the view was
    built with; the user then fills in the three inputs. *)
Definition create_auction_button (self : t) (item_name quantity starting_bid : string)
    : AuctionCreateModal.t :=
  AuctionCreateModal.mk (guild_config self) item_name quantity starting_bid.

End TicketPanelView.

(** [guild_configs.get(guild_id, {...})]: the stored dictionary, or else a
    new dictionary with the defaults, which is not stored. *)
Definition get_config (gid : Z) (s : State) : loc * State :=
  match guild_configs s !! gid with
  | Some l => (l, s)
  | None =>
      (next_loc s,
       with_heap (<[next_loc s := Config.default]> (heap s)) (Pos.succ (next_loc s)) s)
  end.

(** ** Ticket view: the Cancel and Close buttons *)

Module AuctionTicketView.

Definition cancel_button (i : Interaction) (s : State) : result response * State :=
  match auction_tickets s !! channel_id i with
  | None => (Ok TicketNotFound, s)
  | Some ticket =>
      if negb (is_owner ticket i || is_staff i) then (Ok Unauthorized, s) else
      let s1 := with_auction_tickets (delete (channel_id i) (auction_tickets s)) s in
      let s2 := save_tickets s1 in
      (* interaction.channel.delete *)
      let s3 := with_channels (channels s2 ∖ {[channel_id i]}) s2 in
      (Ok TicketCancelled, s3)
  end.

(** Removing the owner's access and renaming the channel are attempts
    whose errors are logged and swallowed; they touch neither the ticket
    store nor the set of live channels. *)
Definition close_button (i : Interaction) (s : State) : result response * State :=
  match auction_tickets s !! channel_id i with
  | None => (Ok TicketNotFound, s)
  | Some ticket =>
      if negb (is_owner ticket i || is_staff i) then (Ok Unauthorized, s) else
      let channel := channel_id i in
      let s1 := with_auction_tickets (delete channel (auction_tickets s)) s in
      let s2 := save_tickets s1 in
      let s3 := create_task_schedule_channel_deletion channel 3600 s2 in
      (Ok TicketClosed, s3)
  end.

End AuctionTicketView.

(** ** The cog: slash commands *)

Module AuctionCog.

(** [refresh_loop]: every six hours. *)
Definition refresh_loop (reply : api_reply) (s : State) : State :=
  update_items_cache reply s.

Definition setup_ticket_panel (i : Interaction) (s : State)
    : result response * option TicketPanelView.t * State :=
  if negb (administrator (user i)) then (Ok AdminOnly, None, s) else
  let '(config, s1) := get_config (guild_id i) s in
  (Ok PanelCreated, Some (TicketPanelView.mk config), s1).

(** [is_category k]: the guild has a channel [k] and it is a category. *)
Definition auction_config (is_category : Z -> bool) (i : Interaction)
    (category_id : option string) (staff_role : option Role) (s : State)
    : result response * State :=
  if negb (administrator (user i)) then (Ok AdminOnly, s) else
  let '(config, s1) := get_config (guild_id i) s in
  let s2 :=
    match category_id with
    | None | Some EmptyString => s1
    | Some text =>
        match Str.int_of_str text with
        | Ok cat_id_int =>
            if is_category cat_id_int
            then with_heap (<[config := Config.set_category_id cat_id_int (heap s1 !!! config)]>
                              (heap s1)) (next_loc s1) s1
            else s1
        | Raise _ => s1
        end
    end in
  let s3 :=
    match staff_role with
    | None => s2
    | Some role =>
        if existsb (Z.eqb (role_id role)) (Config.staff_roles (heap s2 !!! config))
        then s2
        else with_heap (<[config := Config.add_staff_role (role_id role) (heap s2 !!! config)]>
                          (heap s2)) (next_loc s2) s2
    end in
  let s4 := with_guild_configs (<[guild_id i := config]> (guild_configs s3)) s3 in
  (Ok ConfigUpdated, save_configs s4).

(** The command opens a creation form on the guild's configuration as
    [get_config] gives it at that moment; the user then fills in the
    three inputs. *)
Definition create_auction (i : Interaction) (s : State)
    : result response * option (string -> string -> string -> AuctionCreateModal.t) * State :=
  if negb (administrator (user i)) then (Ok AdminOnly, None, s) else
  let '(config, s1) := get_config (guild_id i) s in
  (Ok ModalSent, Some (AuctionCreateModal.mk config), s1).

Definition edit_bid (i : Interaction) (new_bid : string) (s : State)
    : result response * State :=
  let channel_id := channel_id i in
  match auction_tickets s !! channel_id with
  | None => (Ok TicketNotFound, s)
  | Some ticket =>
      if negb (is_owner ticket i || is_staff i) then (Ok Unauthorized, s) else
      match parse_amount (Str.strip new_bid) with
      | Raise ValueError => (Ok InvalidAmount, s)
      | Raise e => (Raise e, s)
      | Ok new_bid_val =>
          let value_each := Ticket.value ticket in
          let quantity := Ticket.quantity ticket in
          let total_worth := value_each * quantity in
          match max_allowed total_worth with
          | Raise e => (Raise e, s)
          | Ok max_allowed =>
              if max_allowed <? new_bid_val
              then
                (* the answer prints both numbers with [:,] *)
                if Str.has_text new_bid_val && Str.has_text max_allowed
                then (Ok (BidExceedsRatio total_worth max_allowed new_bid_val), s)
                else (Raise ValueError, s)
              else
              let s1 :=
                with_auction_tickets
                  (<[channel_id := Ticket.set_starting_bid new_bid_val ticket]>
                     (auction_tickets s)) s in
              let s2 := save_tickets s1 in
              (* the answer prints the new bid with [:,] *)
              if Str.has_text new_bid_val
              then (Ok (BidUpdated new_bid_val), s2)
              else (Raise ValueError, s2)
          end
      end
  end.

(** As for the Close button, the permission edit and the rename are
    attempts whose errors are swallowed. *)
Definition close_auction (i : Interaction) (s : State) : result response * State :=
  let channel_id := channel_id i in
  match auction_tickets s !! channel_id with
  | None => (Ok TicketNotFound, s)
  | Some ticket =>
      if negb (is_owner ticket i || is_staff i) then (Ok Unauthorized, s) else
      let s1 := with_auction_tickets (delete channel_id (auction_tickets s)) s in
      let s2 := save_tickets s1 in
      let s3 := create_task_schedule_channel_deletion channel_id 3600 s2 in
      (Ok TicketClosed, s3)
  end.

Definition refresh_cache (i : Interaction) (reply : api_reply) (s : State)
    : result response * State :=
  if negb (administrator (user i)) then (Ok AdminOnly, s) else
  (Ok CacheRefreshed, update_items_cache reply s).

End AuctionCog.

(** ** Runs of the bot

    One step is one handler run to its end, a refresh of the cache, or the
    passing of time.  A new channel gets an id that no live channel has. *)

Inductive step (WRatio : string -> string -> Q) : State -> State -> Prop :=
  | step_submit self i platform s :
      (forall c, platform = Ok c -> c ∉ channels s) ->
      step WRatio s (snd (AuctionCreateModal.on_submit WRatio self i platform s))
  | step_cancel_button i s :
      step WRatio s (snd (AuctionTicketView.cancel_button i s))
  | step_close_button i s :
      step WRatio s (snd (AuctionTicketView.close_button i s))
  | step_setup_ticket_panel i s :
      step WRatio s (snd (AuctionCog.setup_ticket_panel i s))
  | step_auction_config is_category i category_id staff_role s :
      step WRatio s (snd (AuctionCog.auction_config is_category i category_id staff_role s))
  | step_create_auction i s :
      step WRatio s (snd (AuctionCog.create_auction i s))
  | step_edit_bid i new_bid s :
      step WRatio s (snd (AuctionCog.edit_bid i new_bid s))
  | step_close_auction i s :
      step WRatio s (snd (AuctionCog.close_auction i s))
  | step_refresh_cache i reply s :
      step WRatio s (snd (AuctionCog.refresh_cache i reply s))
  | step_refresh_loop reply s :
      step WRatio s (AuctionCog.refresh_loop reply s)
  | step_advance dt s :
      0 <= dt ->
      step WRatio s (advance dt s).

Inductive run (WRatio : string -> string -> Q) : State -> State -> Prop :=
  | run_nil s : run WRatio s s
  | run_step s1 s2 s3 : run WRatio s1 s2 -> step WRatio s2 s3 -> run WRatio s1 s3.

(** The state of a bot started without any file. *)
Definition initial : State :=
  mkState ∅ 1%positive ∅ ∅ [] ∅ ∅ [] ∅ [] 0.

(** * Predicates and worked examples used in the statements *)

(** What is left of the input once the separators are deleted: the text
    the rest of [parse_amount] works on, before [strip]. *)
Definition cleaned (value_str : string) : string :=
  Str.remove_char "_"%char (Str.remove_char ","%char (Str.lower value_str)).


(** [is_best WRatio query names k]: the name at index [k] has the highest
    score, and every earlier name scores strictly less. *)
Definition is_best (WRatio : string -> string -> Q) (query : string)
    (names : list string) (k : nat) : Prop :=
  exists name,
    names !! k = Some name /\
    (forall j other, names !! j = Some other ->
       (WRatio query other <= WRatio query name)%Q) /\
    (forall j other, (j < k)%nat -> names !! j = Some other ->
       (WRatio query other < WRatio query name)%Q).

(** A scorer for the worked examples: 100 for a choice equal to the query
    and 0 for any other, as [WRatio] scores identical texts. *)
Definition exact_score (query choice : string) : Q :=
  if String.eqb query choice then 100 # 1 else 0 # 1.

(** What the catalog request can fail with, as [update_items_cache] sees
    it: no answer, no JSON, no object, a false [success], a [body] that is
    no list, an empty list. *)
Inductive failed_reply : api_reply -> Prop :=
  | failed_transport : failed_reply TransportError
  | failed_not_json : failed_reply NotJson
  | failed_not_an_object : failed_reply NotAnObject
  | failed_success body : failed_reply (JsonObject false body)
  | failed_body success : failed_reply (JsonObject success BodyOther)
  | failed_empty success : failed_reply (JsonObject success (BodyList [])).

(** The caller owns the ticket or holds a role that may manage channels. *)
Definition authorized (ticket : Ticket.t) (i : Interaction) : Prop :=
  Ticket.user_id ticket = id (user i) \/
  exists r, In r (roles (user i)) /\ manage_channels r = true.

(** The responses that turn a creation request down. *)
Definition is_rejection (r : response) : Prop :=
  match r with
  | InvalidAmount | ItemNotFound | InvalidItemValue
  | BelowMinimumWorth _ | BidExceedsRatio _ _ _ => True
  | _ => False
  end.

Definition total_worth (t : Ticket.t) : Z := Ticket.value t * Ticket.quantity t.

(** What creation and bid edits establish for a stored ticket. *)
Definition ticket_ok (t : Ticket.t) : Prop :=
  10000000 <= total_worth t /\
  exists m, max_allowed (total_worth t) = Ok m /\ Ticket.starting_bid t <= m.

Definition tickets_ok (s : State) : Prop :=
  map_Forall (fun _ t => ticket_ok t) (auction_tickets s).

(** Below this total [int(total * 0.30)] is the exact floor of 30%. *)
Definition exact_range : Z := 7505999378950833.

(** The counter of the guild as [guild_configs] has it. *)
Definition guild_ticket_counter (gid : Z) (s : State) : Z :=
  match guild_configs s !! gid with
  | Some l => default 0 (Config.ticket_counter (heap s !!! l))
  | None => 0
  end.

(** *** A small world for the worked examples *)

Definition blue_gem : Item.t := Item.mk "Blue Gem" (Some 5000000) None.
Definition pebble : Item.t := Item.mk "Pebble" (Some 1234567) None.
Definition catalog : list Item.t := [blue_gem; pebble].

Definition admin : Member := Build_Member 1 [] true.
Definition alice : Member := Build_Member 2 [] false.
Definition bob : Member := Build_Member 3 [] false.
Definition moderator : Member := Build_Member 4 [Build_Role 40 true] false.

(** The bot after its first successful refresh. *)
Definition started : State :=
  update_items_cache (JsonObject true (BodyList (map Entry catalog))) initial.

Definition guild : Z := 10.
Definition lobby : Z := 100.
Definition as_admin : Interaction := Build_Interaction guild lobby admin.
Definition as_alice : Interaction := Build_Interaction guild lobby alice.

(** The admin posts a panel in the started bot, then asks for a creation
    form by command; the guild has no stored configuration yet, so the
    panel and the form each get a dictionary of their own. *)
Definition panel : TicketPanelView.t := TicketPanelView.mk 1%positive.
Definition posted : State := snd (AuctionCog.setup_ticket_panel as_admin started).
Definition commanded : State := snd (AuctionCog.create_auction as_admin posted).

(** The admin's form, and the ticket it opens in channel 501. *)
Definition admin_form : AuctionCreateModal.t :=
  AuctionCreateModal.mk 2%positive "Blue Gem" "3" "4m".
Definition first_opened : State :=
  snd (AuctionCreateModal.on_submit exact_score admin_form as_admin (Ok 501) commanded).

(** Alice's form from the panel button, and the ticket it opens in
    channel 502. *)
Definition alice_form : AuctionCreateModal.t :=
  TicketPanelView.create_auction_button panel "Blue Gem" "3" "4m".
Definition second_opened : State :=
  snd (AuctionCreateModal.on_submit exact_score alice_form as_alice (Ok 502) first_opened).

(** Other forms on the admin's dictionary. *)
Definition small_form : AuctionCreateModal.t :=
  AuctionCreateModal.mk 2%positive "Blue Gem" "1" "1m".
Definition negative_form : AuctionCreateModal.t :=
  AuctionCreateModal.mk 2%positive "Blue Gem" "3" "-5m".
Definition huge_form : AuctionCreateModal.t :=
  AuctionCreateModal.mk 2%positive "Pebble" "6400000009" "2370368643333331".

(** The first ticket's channel, as its owner, a stranger and a moderator
    see it. *)
Definition in_501 (who : Member) : Interaction := Build_Interaction guild 501 who.

(** The tickets the other forms open in channel 501. *)
Definition negative_opened : State :=
  snd (AuctionCreateModal.on_submit exact_score negative_form as_admin (Ok 501) commanded).
Definition huge_opened : State :=
  snd (AuctionCreateModal.on_submit exact_score huge_form as_admin (Ok 501) commanded).

Definition first_ticket : Ticket.t :=
  Ticket.mk 1 guild 1 "Blue Gem" None 5000000 3 4000000.
Definition huge_ticket : Ticket.t :=
  Ticket.mk 1 guild 1 "Pebble" None 1234567 6400000009 2370368643333331.

(** The state an authorized close leaves behind. *)
Definition closed_state (i : Interaction) (s : State) : State :=
  create_task_schedule_channel_deletion (channel_id i) 3600
    (save_tickets (with_auction_tickets (delete (channel_id i) (auction_tickets s)) s)).

(** Channels, tickets and deletion tasks fit together: a channel has at
    most one wake-up time, a channel awaiting deletion is live, and the
    channel of a stored ticket is live and awaits no deletion. *)
Definition well_formed (s : State) : Prop :=
  (forall c w w', In (c, w) (timers s) -> In (c, w') (timers s) -> w = w') /\
  (forall c w, In (c, w) (timers s) -> c ∈ channels s) /\
  (forall c t, auction_tickets s !! c = Some t ->
     c ∈ channels s /\ forall w, ~ In (c, w) (timers s)).

(** * More of the cog: formatting, the panel template, channel names and
    permission overwrites *)

(** ** Python's text forms of an [int] *)

Module Fmt.

(** [str(n)] *)
Definition str (n : Z) : string := DecimalString.NilZero.string_of_int (Z.to_int n).

(** A comma before every group of three digits, counted from the right. *)
Fixpoint group3 (s : string) : string :=
match s with
| EmptyString => EmptyString
| String c r =>
    if (0 <? Z.of_nat (String.length r)) && (Z.of_nat (String.length r) mod 3 =? 0)
    then String c (String ","%char (group3 r))
    else String c (group3 r)
end.

(** [format(n, ",")], the [{n:,}] of the messages *)
Definition commas (n : Z) : string :=
match str n with
| String "-"%char r => String "-"%char (group3 r)
| t => group3 t
end.

(** [s.replace(c, d)] for one-character [c] and [d] *)
Fixpoint replace_char (c d : ascii) (s : string) : string :=
match s with
| EmptyString => EmptyString
| String x r => String (if Ascii.eqb x c then d else x) (replace_char c d r)
end.

End Fmt.

(** ** Channel names *)

(** [name.lower().replace(' ', '-')] *)
Definition safe_name (name : string) : string :=
  Fmt.replace_char " "%char "-"%char (Str.lower name).

(** The name of a new ticket channel (in [on_submit]). *)
Definition channel_name (name discriminator : string) : string :=
  "auction-" +:+ safe_name name +:+ "-" +:+ discriminator.

(** The name a closed channel is given; [owner_member] is the owner's name
    when the owner still is a member of the guild. *)
Definition closed_name (owner_member : option string) : string :=
  match owner_member with
  | Some name => "closed-" +:+ safe_name name +:+ "-ticket"
  | None => "closed-ticket"
  end.

(** An ASCII capital letter. *)
Definition is_upper (c : ascii) : bool :=
  (65 <=? Str.code c) && (Str.code c <=? 90).

(** ** Permission overwrites of a new ticket channel *)

Module Overwrite.
Record t := mk {
view_channel : option bool;
send_messages : option bool;
read_message_history : option bool;
manage_channels : option bool;
use_application_commands : option bool;
}.

(** [PermissionOverwrite(view_channel=False)] *)
Definition hidden : t := mk (Some false) None None None None.

(** The requester's overwrite. *)
Definition member_access : t := mk (Some true) (Some true) (Some true) None (Some true).

(** The overwrite of a staff role. *)
Definition staff_access : t :=
mk (Some true) (Some true) (Some true) (Some true) (Some true).
End Overwrite.

(** The keys of the [overwrites] dictionary: a role or a member, each
    compared by its id within its kind. *)
Definition role_key (r : Z) : Z + Z := inl r.
Definition member_key (u : Z) : Z + Z := inr u.

(** The [overwrites] of [on_submit].  [default_role] is the id of
    [guild.default_role]; [get_role r] tells whether [guild.get_role(r)]
    finds a role. *)
Definition overwrites (default_role : Z) (get_role : Z -> bool) (i : Interaction)
    (staff_role_ids : list Z) : gmap (Z + Z) Overwrite.t :=
  foldl (fun acc r_id =>
           if get_role r_id then <[role_key r_id := Overwrite.staff_access]> acc else acc)
        (<[member_key (id (user i)) := Overwrite.member_access]>
           (<[role_key default_role := Overwrite.hidden]> ∅))
        staff_role_ids.

(** ** The panel template *)

Module Template.
Record t := mk {
title : option string;
description : option string;
footer : option string;
colour : option string;
thumbnail : option string;
button_text : option string;
button_colour : option string;
}.
End Template.

Definition DEFAULT_PANEL_TEMPLATE : Template.t :=
  Template.mk
    (Some "Auction Ticket Panel")
    (Some "Click **Create Auction Ticket** below to open a private channel for your auction.")
    (Some "Auction Ticket Panel")
    (Some "blue")
    (Some EmptyString)
    (Some "Create Auction Ticket")
    (Some "success").

(** A JSON file as [load_json] sees it. *)
Inductive json_file (A : Type) :=
  | Absent
  | Corrupt
  | Holds (data : A).
Arguments Absent {A}.
Arguments Corrupt {A}.
Arguments Holds {A} data.

(** [load_json]: the data, or [default] when the file is missing or does
    not parse (the error is logged). *)
Definition load_json {A} (file : json_file A) (default : A) : A :=
  match file with
  | Holds data => data
  | Absent | Corrupt => default
  end.

(** [save_json], when the write goes through. *)
Definition save_json {A} (data : A) : json_file A := Holds data.

Definition load_auc_panel_template (file : json_file Template.t) : Template.t :=
  load_json file DEFAULT_PANEL_TEMPLATE.

Definition save_auc_panel_template (template : Template.t) : json_file Template.t :=
  save_json template.

(** [mapping.get(key, default)] on a dictionary literal. *)
Fixpoint dict_get {V} (mapping : list (string * V)) (key : string) (default : V) : V :=
  match mapping with
  | [] => default
  | (k, v) :: rest => if String.eqb k key then v else dict_get rest key default
  end.

Module Color.
Inductive t := red | blue | green | black | purple | gold | orange.
End Color.

Module ButtonStyle.
Inductive t := primary | secondary | success | danger.
End ButtonStyle.

Definition embed_colors : list (string * Color.t) :=
  [("red", Color.red); ("blue", Color.blue); ("green", Color.green);
   ("black", Color.black); ("purple", Color.purple); ("gold", Color.gold);
   ("orange", Color.orange)].

Definition map_embed_color (colour_str : string) : Color.t :=
  dict_get embed_colors (Str.lower colour_str) Color.blue.

Definition button_styles : list (string * ButtonStyle.t) :=
  [("primary", ButtonStyle.primary); ("secondary", ButtonStyle.secondary);
   ("success", ButtonStyle.success); ("danger", ButtonStyle.danger)].

Definition map_button_colour (colour_str : string) : ButtonStyle.t :=
  dict_get button_styles (Str.lower colour_str) ButtonStyle.success.

(** [d.get(key)] is truthy: the key is there with a non-empty text. *)
Definition truthy (v : option string) : option string :=
  match v with
  | Some EmptyString | None => None
  | Some text => Some text
  end.

(** The embed of the panel message. *)
Record Embed := {
  embed_title : string;
  embed_description : string;
  embed_color : Color.t;
  embed_footer : option string;
  embed_thumbnail : option string;
}.

(** The button of the panel view. *)
Record Button := {
  button_label : string;
  button_style : ButtonStyle.t;
}.

(** The embed [setup_ticket_panel] builds from the template. *)
Definition panel_embed (template : Template.t) : Embed :=
  {| embed_title := default "Auction Ticket Panel" (Template.title template);
     embed_description :=
       default "Click **Create Auction Ticket** below to open a private channel for your auction."
               (Template.description template);
     embed_color := map_embed_color (default "blue" (Template.colour template));
     embed_footer := truthy (Template.footer template);
     embed_thumbnail := truthy (Template.thumbnail template) |}.

(** The button [TicketPanelView.__init__] builds from the template. *)
Definition panel_button (template : Template.t) : Button :=
  {| button_label := default "Create Auction Ticket" (Template.button_text template);
     button_style := map_button_colour (default "success" (Template.button_colour template)) |}.

(** The seven optional arguments of [customize_auc_panel] have the shape
    of a template: [None] is an argument that was not given. *)
Definition customized (given template : Template.t) : Template.t :=
  let pick (arg old : option string) :=
    match arg with Some text => Some text | None => old end in
  Template.mk
    (pick (Template.title given) (Template.title template))
    (pick (Template.description given) (Template.description template))
    (pick (Template.footer given) (Template.footer template))
    (pick (Template.colour given) (Template.colour template))
    (pick (Template.thumbnail given) (Template.thumbnail template))
    (pick (Template.button_text given) (Template.button_text template))
    (pick (Template.button_colour given) (Template.button_colour template)).

Inductive panel_response :=
  | PanelAdminOnly
  | TemplateUpdated
  | PanelPosted (embed : Embed) (button : Button).

Definition customize_auc_panel (i : Interaction) (given : Template.t)
    (file : json_file Template.t) : panel_response * json_file Template.t :=
  if negb (administrator (user i)) then (PanelAdminOnly, file) else
  let template := load_auc_panel_template file in
  (TemplateUpdated, save_auc_panel_template (customized given template)).

(** What [setup_ticket_panel] posts: the embed and the button of the view,
    both built from the template as the file has it at that moment. *)
Definition setup_ticket_panel_message (i : Interaction) (file : json_file Template.t)
    : panel_response :=
  if negb (administrator (user i)) then PanelAdminOnly else
  let template := load_auc_panel_template file in
  PanelPosted (panel_embed template) (panel_button template).

(** ** Character classes used in the statements about [parse_amount] *)

(** An ASCII character.  On a text of ASCII characters [Str.lower] is
    [str.lower]; beyond ASCII Python lowers more (the Kelvin sign to [k],
    for one), which the model does not follow. *)
Definition is_ascii (c : ascii) : bool := Str.code c <? 128.

Definition is_digit (c : ascii) : bool :=
  match Str.digit_val c with Some _ => true | None => false end.

Fixpoint all_chars (P : ascii -> bool) (s : string) : bool :=
  match s with
  | EmptyString => true
  | String c r => P c && all_chars P r
  end.

(** A character that lowering, the deletion of separators and stripping
    leave alone, and that is no decimal point. *)
Definition inert (c : ascii) : bool :=
  negb (Str.is_space c) && Ascii.eqb (Str.lower_char c) c &&
  negb (Ascii.eqb c ","%char) && negb (Ascii.eqb c "_"%char) &&
  negb (Ascii.eqb c "."%char).

(** The decimal text of a sign and a digit sequence: what [str] gives. *)
Definition signed_text (negative : bool) (d : Decimal.uint) : string :=
  if negative then String "-"%char (DecimalString.NilEmpty.string_of_uint d)
  else DecimalString.NilEmpty.string_of_uint d.

Definition signed_value (negative : bool) (d : Decimal.uint) : Z :=
  if negative then - Z.of_uint d else Z.of_uint d.

(** For the two files that mirror a global one to one, the value last
    handed to [json.dump] is what memory holds. *)
Definition files_follow (s : State) : Prop :=
  tickets_file s = auction_tickets s /\ items_file s = cached_items s.

(** ** What the ticket file holds

    [json.dump] writes every [int] of a ticket as text: the ticket id,
    the user id, the value, the quantity and the starting bid (the guild
    id is stored as a string).  An [int] without a text makes it raise in
    the middle of the file it has just emptied; [save_json] swallows the
    error, and what is left in the file is no JSON. *)
Definition ticket_has_text (t : Ticket.t) : bool :=
  Str.has_text (Ticket.ticket_id t) && Str.has_text (Ticket.user_id t) &&
  Str.has_text (Ticket.value t) && Str.has_text (Ticket.quantity t) &&
  Str.has_text (Ticket.starting_bid t).

Definition dumpable (tickets : gmap Z Ticket.t) : bool :=
  forallb (fun entry : Z * Ticket.t => ticket_has_text (snd entry)) (map_to_list tickets).

(** The ticket file after the last [save_tickets]. *)
Definition tickets_on_disk (s : State) : json_file (gmap Z Ticket.t) :=
  if dumpable (tickets_file s) then Holds (tickets_file s) else Corrupt.

(** A bid text of 4300 nines, a minus sign before and the suffix [b]
    behind. *)
Fixpoint nines (n : nat) : string :=
  match n with
  | O => EmptyString
  | S k => String "9"%char (nines k)
  end.

Definition overlong_bid : string := String "-"%char (nines 4300) +:+ "b".

(** The administrator's view of the guild of the worked examples, and a
    member without that permission. *)
Definition as_bob : Interaction := Build_Interaction guild lobby bob.

(** What [auction_config] makes of the guild's dictionary. *)
Definition configured (is_category : Z -> bool) (category_id : option string)
    (staff_role : option Role) (config : Config.t) : Config.t :=
  let config1 :=
    match category_id with
    | None | Some EmptyString => config
    | Some text =>
        match Str.int_of_str text with
        | Ok cat_id_int =>
            if is_category cat_id_int then Config.set_category_id cat_id_int config
            else config
        | Raise _ => config
        end
    end in
  match staff_role with
  | None => config1
  | Some role =>
      if existsb (Z.eqb (role_id role)) (Config.staff_roles config1) then config1
      else Config.add_staff_role (role_id role) config1
  end.

(** Whether some staff role that the guild resolves is the role of key [k]. *)
Definition granted (get_role : Z -> bool) (staff_role_ids : list Z) (k : Z + Z) : bool :=
  match k with
  | inl r => existsb (fun x => (x =? r) && get_role x) staff_role_ids
  | inr _ => false
  end.

(** An administrator of the guild of the worked examples customizes the
    title and the colour. *)
Definition new_look : Template.t :=
  Template.mk (Some "Auctions") None None (Some "GOLD") None None None.

(** ** Starting the bot *)



(** * Properties *)

(** ** Rounding and the 30% bound *)

Section FloatFacts.
Import Float.

Lemma rne_lower P D K : 0 < D -> 2 * (K * D - P) < D -> K <= rne P D.
Proof.
intros HD H. unfold rne.
pose proof (Z.div_mod P D ltac:(lia)) as E.
pose proof (Z.mod_pos_bound P D HD) as B.
set (q := P / D) in *. set (r := P mod D) in *.
assert (K <= q + 1) by nia.
assert (2 * r <= D -> K <= q) by nia.
repeat case_match; lia.
Qed.

Lemma rne_upper P D K : 0 < D -> 2 * (P - K * D) < D -> rne P D <= K.
Proof.
intros HD H. unfold rne.
pose proof (Z.div_mod P D ltac:(lia)) as E.
pose proof (Z.mod_pos_bound P D HD) as B.
set (q := P / D) in *. set (r := P mod D) in *.
assert (q <= K) by nia.
assert (D <= 2 * r -> q + 1 <= K) by nia.
repeat case_match; lia.
Qed.

Lemma rne_unit P : rne P 1 = P.
Proof. unfold rne. rewrite Z.div_1_r, Z.mod_1_r. reflexivity. Qed.

Lemma c_0_30_eq : c_0_30 = Finite 5404319552844595 (-54).
Proof. vm_compute. reflexivity. Qed.

Lemma of_int_small n : 0 <= n < 2 ^ 53 -> of_int n = Ok (Finite n 0).
Proof.
intros [H0 H1]. unfold of_int, round_dyadic.
rewrite Z.abs_eq by lia.
assert (Z.log2 n < 53) as Hl.
{ destruct (Z.eq_dec n 0) as [->|]; [reflexivity|]. apply Z.log2_lt_pow2; lia. }
replace (Z.max 0 (Z.max (Z.log2 n + 1 - prec) (emin - 0))) with 0
  by (unfold prec, emin; lia).
change (2 ^ 0) with 1. rewrite rne_unit.
unfold pack, overflows.
replace (n <? 0) with false by (symmetry; apply Z.ltb_ge; lia).
replace (2 ^ emax <=? n * 2 ^ (0 + 0)) with false; cycle 1.
{ symmetry. apply Z.leb_gt. change (2 ^ (0 + 0)) with 1.
  assert (2 ^ 53 < 2 ^ emax) by (apply Z.pow_lt_mono_r; unfold emax; lia). lia. }
replace (emax <? 0 + 0) with false by reflexivity.
destruct (0 <? n); reflexivity.
Qed.

Lemma mul_0_30 n :
0 < n -> n * M < 2 ^ 106 ->
mul (Finite n 0) (Finite M (-54)) =
Finite (rne (n * M) (2 ^ (Z.log2 (n * M) - 52))) (Z.log2 (n * M) - 106).
Proof.
intros Hn Hlt. unfold mul, round_dyadic.
assert (2 ^ 52 <= n * M) as Hge by (unfold M; lia).
rewrite Z.abs_eq by lia.
assert (52 <= Z.log2 (n * M)) as Hl1 by (apply Z.log2_le_pow2; lia).
assert (Z.log2 (n * M) < 106) as Hl2 by (apply Z.log2_lt_pow2; lia).
replace (Z.max 0 (Z.max (Z.log2 (n * M) + 1 - prec) (emin - (0 + -54))))
  with (Z.log2 (n * M) - 52) by (unfold prec, emin; lia).
replace (0 + -54 + (Z.log2 (n * M) - 52)) with (Z.log2 (n * M) - 106) by lia.
unfold pack, overflows.
replace (n * M <? 0) with false by (symmetry; apply Z.ltb_ge; lia).
replace (emax <? Z.log2 (n * M) - 106) with false
  by (symmetry; apply Z.ltb_ge; unfold emax; lia).
replace (0 <=? Z.log2 (n * M) - 106) with false by (symmetry; apply Z.leb_gt; lia).
destruct (0 <? rne _ _); reflexivity.
Qed.

Lemma rne_window n D J q r :
0 < D -> D * J = 2 ^ 54 -> 4 * D <= 2 ^ 54 ->
D * 2 ^ 52 <= n * M < D * 2 ^ 53 ->
3 * n = 10 * q + r -> 0 <= r < 10 ->
q * J <= rne (n * M) D < (q + 1) * J.
Proof.
intros HD HJ H4 [Hlo Hhi] Hq Hr.
assert (q * J * D = q * 2 ^ 54) as E1 by (rewrite <- HJ; ring).
assert (((q + 1) * J - 1) * D = (q + 1) * 2 ^ 54 - D) as E2 by (rewrite <- HJ; ring).
unfold M in *.
split.
- apply rne_lower; [lia|]. rewrite E1. lia.
- assert (rne (n * 5404319552844595) D <= (q + 1) * J - 1); [|lia].
  apply rne_upper; [lia|]. rewrite E2. lia.
Qed.


Lemma max_allowed_below n :
0 < n -> n * M < 2 ^ 105 -> max_allowed n = Ok (3 * n / 10).
Proof.
intros Hn Hlt.
assert (2 ^ 52 <= n * M) as Hge by (unfold M; lia).
assert (n < 2 ^ 53) as Hn53 by (unfold M in Hlt; lia).
unfold max_allowed, int_mul.
rewrite of_int_small by lia. cbn [bind].
rewrite c_0_30_eq. fold M. rewrite mul_0_30 by lia.
pose proof (Z.log2_spec (n * M) ltac:(lia)) as [Hs1 Hs2].
assert (52 <= Z.log2 (n * M)) as Hl1 by (apply Z.log2_le_pow2; lia).
assert (Z.log2 (n * M) < 105) as Hl2 by (apply Z.log2_lt_pow2; lia).
set (k := Z.log2 (n * M) - 52) in *.
replace (Z.log2 (n * M) - 106) with (k - 54) by lia.
replace (Z.log2 (n * M)) with (k + 52) in Hs1 by lia.
replace (Z.succ (Z.log2 (n * M))) with (k + 53) in Hs2 by lia.
rewrite Z.pow_add_r in Hs1, Hs2 by lia.
assert (0 < 2 ^ k) as HD by (apply Z.pow_pos_nonneg; lia).
assert (2 ^ k * 2 ^ (54 - k) = 2 ^ 54) as HJ
  by (rewrite <- Z.pow_add_r by lia; f_equal; lia).
assert (2 ^ k <= 2 ^ 52) as Hk by (apply Z.pow_le_mono_r; lia).
pose proof (Z.div_mod (3 * n) 10 ltac:(lia)) as Hq.
pose proof (Z.mod_pos_bound (3 * n) 10 ltac:(lia)) as Hr.
pose proof (rne_window n (2 ^ k) (2 ^ (54 - k)) (3 * n / 10) ((3 * n) mod 10)
              HD HJ ltac:(lia) ltac:(lia) Hq Hr) as [Hw1 Hw2].
assert (0 < 2 ^ (54 - k)) as HJpos by (apply Z.pow_pos_nonneg; lia).
assert (0 <= 3 * n / 10) as Hq0 by (apply Z.div_pos; lia).
unfold to_int.
replace (0 <=? k - 54) with false by (symmetry; apply Z.leb_gt; lia).
replace (- (k - 54)) with (54 - k) by lia.
f_equal. rewrite Z.quot_div_nonneg by nia.
symmetry. apply Z.div_unique with (r := rne (n * M) (2 ^ k) - 3 * n / 10 * 2 ^ (54 - k)).
- left. lia.
- lia.
Qed.

Lemma max_allowed_exact n :
0 <= n < 7505999378950833 -> max_allowed n = Ok (3 * n / 10).
Proof.
intros [H0 H1].
destruct (Z.eq_dec n 0) as [->|]; [vm_compute; reflexivity|].
destruct (Z_lt_le_dec n 7505999378950827) as [Hlt|Hge].
- apply max_allowed_below; [lia|]. unfold M.
  change (2 ^ 105) with 40564819207303340847894502572032. lia.
- assert (n = 7505999378950827 \/ n = 7505999378950828 \/ n = 7505999378950829 \/
          n = 7505999378950830 \/ n = 7505999378950831 \/ n = 7505999378950832)
    as [-> | [-> | [-> | [-> | [-> | ->]]]]] by lia; vm_compute; reflexivity.
Qed.

Lemma max_allowed_first_gap :
max_allowed 7505999378950833 = Ok (3 * 7505999378950833 / 10 + 1).
Proof. vm_compute. reflexivity. Qed.




(** Whatever [int] makes of a rounded double lies within the double
  range. *)
Lemma to_int_round_dyadic P E z :
to_int (round_dyadic P E) = Ok z -> Z.abs z < 2 ^ 1024.
Proof.
unfold round_dyadic.
set (a := Z.abs P).
set (k := Z.max 0 (Z.max (Z.log2 a + 1 - prec) (emin - E))).
assert (0 <= a) as Ha by (subst a; lia).
assert (0 <= k) as Hk by (subst k; lia).
assert (0 < 2 ^ k) as HD by (apply Z.pow_pos_nonneg; lia).
assert (0 <= rne a (2 ^ k) <= 2 ^ 53) as Hm.
{ split.
  - apply rne_lower; [exact HD | lia].
  - apply rne_upper; [exact HD|].
    destruct (Z.eq_dec a 0) as [->|Hne]; [nia|].
    pose proof (Z.log2_spec a ltac:(lia)) as [_ Hs].
    assert (2 ^ Z.succ (Z.log2 a) <= 2 ^ (53 + k)) as Hp
      by (apply Z.pow_le_mono_r; unfold prec in *; lia).
    rewrite Z.pow_add_r in Hp by lia. nia. }
set (m := rne a (2 ^ k)) in *.
unfold pack. destruct (overflows m (E + k)) eqn:Hov; [discriminate|].
cbn [to_int]. intros [= <-].
assert (2 ^ 53 < 2 ^ 1024) as H53 by (apply Z.pow_lt_mono_r; lia).
destruct (0 <=? E + k) eqn:He.
- apply Z.leb_le in He.
  assert (0 < 2 ^ (E + k)) as HE by (apply Z.pow_pos_nonneg; lia).
  unfold overflows in Hov. rewrite (proj2 (Z.leb_le _ _) He) in Hov. cbn [andb] in Hov.
  destruct (Z.ltb_spec 0 m) as [Hpos|Hzero]; cbn [andb] in Hov.
  + apply orb_false_iff in Hov as [_ Hov]. apply Z.leb_gt in Hov. unfold emax in Hov.
    destruct (P <? 0); [rewrite Z.mul_opp_l, Z.abs_opp|]; rewrite Z.abs_eq; nia.
  + assert (m = 0) as -> by lia. destruct (P <? 0); cbn; lia.
- apply Z.leb_gt in He.
  assert (0 < 2 ^ (- (E + k))) as HE by (apply Z.pow_pos_nonneg; lia).
  rewrite <- Z.quot_abs by lia.
  rewrite (Z.abs_eq (2 ^ _)) by lia.
  assert (Z.abs (if P <? 0 then - m else m) = m) as ->
    by (destruct (P <? 0); lia).
  rewrite Z.quot_div_nonneg by lia.
  assert (m / 2 ^ (- (E + k)) <= m); [|lia].
  apply Z.div_le_upper_bound; nia.
Qed.

Lemma has_text_spec n : Str.has_text n = true <-> Z.abs n < 10 ^ 4300.
Proof. unfold Str.has_text, Str.int_max_str_digits. apply Z.ltb_lt. Qed.

Lemma double_range_has_text n : Z.abs n < 2 ^ 1024 -> Str.has_text n = true.
Proof.
intros H. apply has_text_spec.
assert (2 ^ 1024 < 10 ^ 4300) as Hb by (apply Z.ltb_lt; vm_compute; reflexivity).
exact (Z.lt_trans _ _ _ H Hb).
Qed.


Lemma has_text_false n : Str.has_text n = false <-> 10 ^ 4300 <= Z.abs n.
Proof. unfold Str.has_text, Str.int_max_str_digits. apply Z.ltb_ge. Qed.

(** The limit always can be printed. *)
Lemma max_allowed_has_text n limit :
max_allowed n = Ok limit -> Str.has_text limit = true.
Proof.
unfold max_allowed, int_mul, of_int. intros H. apply double_range_has_text.
destruct (round_dyadic n 0) as [m e| |]; cbn [bind] in H; try discriminate.
rewrite c_0_30_eq in H. cbn [mul] in H.
exact (to_int_round_dyadic _ _ _ H).
Qed.

(** On sample totals on both sides of the exact range the model gives what
  the IEEE 754 specification of the core library gives. *)
Lemma int_mul_agrees_with_SpecFloat :
spec_eqb (to_spec c_0_30) spec_three_tenths = true /\
forallb agrees_with_spec
  [1; 10; 13; 15000000; 7505999378950832; 7505999378950833;
   7901228811111103; 100000000000000007; 10 ^ 40 + 1] = true.
Proof. split; vm_compute; reflexivity. Qed.

End FloatFacts.
(** ** The amount parser *)

Lemma lower_app s1 s2 : Str.lower (s1 +:+ s2) = Str.lower s1 +:+ Str.lower s2.
Proof. induction s1 as [|c s1 IH]; simpl; [reflexivity | now rewrite IH]. Qed.

Lemma remove_char_app c s1 s2 :
  Str.remove_char c (s1 +:+ s2) = Str.remove_char c s1 +:+ Str.remove_char c s2.
Proof.
  induction s1 as [|d s1 IH]; simpl; [reflexivity|].
  destruct (Ascii.eqb d c); simpl; now rewrite IH.
Qed.

Lemma parse_amount_cleaned s1 s2 :
  cleaned s1 = cleaned s2 -> parse_amount s1 = parse_amount s2.
Proof. unfold parse_amount, cleaned. now intros ->. Qed.

Lemma cleaned_comma s1 s2 : cleaned (s1 +:+ "," +:+ s2) = cleaned (s1 +:+ s2).
Proof. unfold cleaned. now rewrite !lower_app, !remove_char_app. Qed.

Lemma cleaned_underscore s1 s2 : cleaned (s1 +:+ "_" +:+ s2) = cleaned (s1 +:+ s2).
Proof. unfold cleaned. now rewrite !lower_app, !remove_char_app. Qed.

Lemma remove_char_absent c s : Str.contains c (Str.remove_char c s) = false.
Proof.
  induction s as [|d s IH]; simpl; [reflexivity|].
  destruct (Ascii.eqb d c) eqn:E; simpl; [assumption|]. now rewrite E.
Qed.

Lemma contains_remove_other c d s :
  Str.contains c s = false -> Str.contains c (Str.remove_char d s) = false.
Proof.
  induction s as [|x s IH]; simpl; [reflexivity|].
  intros [H1 H2]%orb_false_iff.
  destruct (Ascii.eqb x d); simpl; [auto|]. rewrite H1. simpl. auto.
Qed.

Lemma cleaned_has_no_separator s :
  Str.contains ","%char (cleaned s) = false /\ Str.contains "_"%char (cleaned s) = false.
Proof.
  unfold cleaned. split.
  - apply contains_remove_other, remove_char_absent.
  - apply remove_char_absent.
Qed.

(** C8: the amount parser on the spec's examples. *)
Theorem parse_amount_examples :
  parse_amount "1.5m" = Ok 1500000 /\
  parse_amount "500k" = Ok 500000 /\
  parse_amount "10,000" = Ok 10000 /\
  parse_amount "abc" = Raise ValueError /\
  parse_amount "1.5" = Ok 1.
Proof. repeat split; vm_compute; reflexivity. Qed.

(** C10: separators are deleted wherever they stand, negative literals are
    accepted, the empty text and a bare suffix are invalid. *)
Theorem parse_amount_separators_and_signs :
  (forall s1 s2, parse_amount (s1 +:+ "," +:+ s2) = parse_amount (s1 +:+ s2)) /\
  (forall s1 s2, parse_amount (s1 +:+ "_" +:+ s2) = parse_amount (s1 +:+ s2)) /\
  parse_amount "1,,2" = Ok 12 /\
  parse_amount "-5m" = Ok (-5000000) /\
  parse_amount EmptyString = Raise ValueError /\
  parse_amount "k" = Raise ValueError.
Proof.
  split; [|split].
  - intros. apply parse_amount_cleaned, cleaned_comma.
  - intros. apply parse_amount_cleaned, cleaned_underscore.
  - repeat split; vm_compute; reflexivity.
Qed.

(** A text the parser refuses is answered as an invalid amount, by the
    creation form and by edit-bid alike, and nothing changes. *)
Lemma value_error_reported_as_invalid_amount :
  (forall WRatio self i platform s,
     AuctionCreateModal.parse_inputs self = Raise ValueError ->
     AuctionCreateModal.on_submit WRatio self i platform s = (Ok InvalidAmount, s)) /\
  (forall i new_bid s ticket,
     auction_tickets s !! channel_id i = Some ticket ->
     is_owner ticket i || is_staff i = true ->
     parse_amount (Str.strip new_bid) = Raise ValueError ->
     AuctionCog.edit_bid i new_bid s = (Ok InvalidAmount, s)).
Proof.
  split.
  - intros WRatio self i platform s H. unfold AuctionCreateModal.on_submit. now rewrite H.
  - intros i new_bid s ticket Ht Ha Hp. unfold AuctionCog.edit_bid.
    now rewrite Ht, Ha, Hp.
Qed.

(** ** Fuzzy item lookup *)

Section FuzzyFacts.

Variable WRatio : string -> string -> Q.
Variable query : string.

Lemma extractOne_loop_spec choices :
  forall (seen : list string) (best : option (string * Q * nat)),
    match best with
    | None => seen = []
    | Some (name, score, k) =>
        seen !! k = Some name /\ score = WRatio query name /\
        is_best WRatio query seen k
    end ->
    seen ++ choices <> [] ->
    exists name k,
      extractOne_loop WRatio query choices (length seen) best
        = Some (name, WRatio query name, k) /\
      (seen ++ choices) !! k = Some name /\
      is_best WRatio query (seen ++ choices) k.
Proof.
  induction choices as [|c rest IH]; intros seen best Hbest Hne.
  - rewrite app_nil_r in *. simpl.
    destruct best as [[[name score] k]|]; [|congruence].
    destruct Hbest as (Hk & -> & Hb). eauto.
  - simpl. replace (seen ++ c :: rest) with ((seen ++ [c]) ++ rest) in *
      by (rewrite <- app_assoc; reflexivity).
    replace (S (length seen)) with (length (seen ++ [c]))
      by (rewrite length_app; simpl; lia).
    apply IH; [|destruct seen; discriminate].
    destruct best as [[[name score] k]|].
    + destruct Hbest as (Hk & -> & (name' & Hk' & Hle & Hlt)).
      assert (name' = name) as -> by congruence.
      pose proof (lookup_lt_Some _ _ _ Hk) as Hklt.
      destruct (Qle_bool (WRatio query c) (WRatio query name)) eqn:E.
      * apply Qle_bool_iff in E.
        split; [now rewrite lookup_app_l|]. split; [reflexivity|].
        exists name. split; [now rewrite lookup_app_l|]. split.
        -- intros j other Hj.
           apply lookup_app_Some in Hj as [Hj | [_ Hj]]; [eauto|].
           apply list_lookup_singleton_Some in Hj as [_ <-]. exact E.
        -- intros j other Hjk Hj. rewrite lookup_app_l in Hj by lia. eauto.
      * assert (WRatio query name < WRatio query c)%Q as Hgt.
        { apply Qnot_le_lt. intros H. apply Qle_bool_iff in H. congruence. }
        assert ((seen ++ [c]) !! length seen = Some c) as Hc.
        { rewrite lookup_app_r by lia. now rewrite Nat.sub_diag. }
        split; [exact Hc|]. split; [reflexivity|].
        exists c. split; [exact Hc|]. split.
        -- intros j other Hj.
           apply lookup_app_Some in Hj as [Hj | [_ Hj]].
           ++ apply Qlt_le_weak. eapply Qle_lt_trans; [eapply Hle; eauto | exact Hgt].
           ++ apply list_lookup_singleton_Some in Hj as [_ <-]. apply Qle_refl.
        -- intros j other Hjk Hj. rewrite lookup_app_l in Hj by lia.
           eapply Qle_lt_trans; [eapply Hle; eauto | exact Hgt].
    + subst seen. simpl.
      split; [reflexivity|]. split; [reflexivity|].
      exists c. split; [reflexivity|]. split.
      * intros [|j] other Hj; simpl in Hj; [|now destruct j].
        injection Hj as <-. apply Qle_refl.
      * intros j other Hj. lia.
Qed.

Lemma extractOne_spec choices :
  choices <> [] ->
  exists name k,
    extractOne WRatio query choices = Some (name, WRatio query name, k) /\
    choices !! k = Some name /\ is_best WRatio query choices k.
Proof.
  intros Hne. apply (extractOne_loop_spec choices [] None); [reflexivity | exact Hne].
Qed.

Lemma fuzzy_search_item_empty threshold :
  fuzzy_search_item WRatio query [] threshold = Ok None.
Proof. reflexivity. Qed.

Lemma names_entries (items : list Item.t) :
  names (map Entry items) = Ok (map Item.name items).
Proof.
  induction items as [|item rest IH]; [reflexivity|].
  cbn [map names entry_name bind]. now rewrite IH.
Qed.

Lemma lookup_entries (items : list Item.t) k :
  map Entry items !! k = Entry <$> items !! k.
Proof. apply list_lookup_fmap. Qed.

(** What the lookup does on a snapshot whose elements all are entries. *)
Lemma fuzzy_search_item_entries (items : list Item.t) threshold :
  fuzzy_search_item WRatio query (map Entry items) threshold =
  match items with
  | [] => Ok None
  | _ =>
      match extractOne WRatio query (map Item.name items) with
      | Some (best_match, score, idx) =>
          if negb (String.eqb best_match EmptyString) && Qle_bool threshold score
          then Ok (items !! idx)
          else Ok None
      | None => Ok None
      end
  end.
Proof.
  destruct items as [|i0 rest]; [reflexivity|].
  unfold fuzzy_search_item. change (map Entry (i0 :: rest)) with (Entry i0 :: map Entry rest) at 1.
  cbv iota. change (Entry i0 :: map Entry rest) with (map Entry (i0 :: rest)).
  rewrite names_entries. cbn [bind].
  destruct (extractOne _ _ _) as [[[best_match score] idx]|]; [|reflexivity].
  destruct (_ && _); [|reflexivity].
  rewrite lookup_entries. now destruct ((i0 :: rest) !! idx).
Qed.

Lemma fuzzy_search_item_best items threshold :
  items <> [] ->
  (WRatio query EmptyString < threshold)%Q ->
  exists k item,
    items !! k = Some item /\
    is_best WRatio query (map Item.name items) k /\
    fuzzy_search_item WRatio query (map Entry items) threshold =
      Ok (if Qle_bool threshold (WRatio query (Item.name item)) then Some item else None).
Proof.
  intros Hne Hempty.
  destruct (extractOne_spec (map Item.name items)) as (name & k & Hex & Hk & Hbest).
  { destruct items; [congruence | discriminate]. }
  rewrite list_lookup_fmap in Hk.
  destruct (items !! k) as [item|] eqn:Hitem; [|discriminate].
  injection Hk as <-.
  exists k, item. split; [exact Hitem|]. split; [exact Hbest|].
  rewrite fuzzy_search_item_entries. destruct items as [|i0 rest]; [congruence|].
  rewrite Hex.
  destruct (String.eqb (Item.name item) EmptyString) eqn:E; simpl.
  - apply String.eqb_eq in E. rewrite E in *.
    destruct (Qle_bool threshold (WRatio query EmptyString)) eqn:E2; [|reflexivity].
    apply Qle_bool_iff in E2. exfalso. eapply Qlt_not_le; eauto.
  - destruct (Qle_bool threshold (WRatio query (Item.name item)));
      [now rewrite Hitem | reflexivity].
Qed.

End FuzzyFacts.

(** C9: on an empty snapshot the lookup gives nothing; on a non-empty
    snapshot of catalog entries it gives the item with the highest score,
    the first such on equal scores, when that score reaches the
    threshold, and nothing otherwise.  An empty name is taken not to
    reach the threshold ([WRatio] scores it 0). *)
Theorem fuzzy_search_item_spec (WRatio : string -> string -> Q) (query : string)
    (items : list Item.t) (threshold : Q) :
  fuzzy_search_item WRatio query [] threshold = Ok None /\
  ((WRatio query EmptyString < threshold)%Q ->
   items <> [] ->
   exists k item,
     items !! k = Some item /\
     is_best WRatio query (map Item.name items) k /\
     fuzzy_search_item WRatio query (map Entry items) threshold =
       Ok (if Qle_bool threshold (WRatio query (Item.name item)) then Some item else None)).
Proof.
  split.
  - apply fuzzy_search_item_empty.
  - intros Hempty Hne. now apply fuzzy_search_item_best.
Qed.

Lemma fuzzy_search_item_spec_witness :
  exists k item,
    catalog !! k = Some item /\
    is_best exact_score "Pebble" (map Item.name catalog) k /\
    fuzzy_search_item exact_score "Pebble" (map Entry catalog) (65 # 1) =
      Ok (if Qle_bool (65 # 1) (exact_score "Pebble" (Item.name item)) then Some item else None).
Proof.
  apply (fuzzy_search_item_spec exact_score "Pebble" catalog (65 # 1)).
  - reflexivity.
  - discriminate.
Defined.

(** ** Cache refresh *)

Lemma failed_reply_fetch reply : failed_reply reply <-> fetch_items_from_api reply = [].
Proof.
  split.
  - intros []; try reflexivity; destruct success; reflexivity.
  - destruct reply as [| | |success body]; try constructor.
    destruct success, body as [items|]; try constructor.
    unfold fetch_items_from_api; simpl. intros ->. constructor.
Qed.

Lemma update_items_cache_failed reply s :
  failed_reply reply -> update_items_cache reply s = s.
Proof.
  intros H%failed_reply_fetch. unfold update_items_cache. now rewrite H.
Qed.

Lemma update_items_cache_ok items s :
  items <> [] ->
  update_items_cache (JsonObject true (BodyList items)) s =
  save_items (with_cached_items items s).
Proof. destruct items; [congruence | reflexivity]. Qed.

(** C5, as the code has it: a refresh fails on a transport error, on a
    response that is no JSON object, on a falsy [success], on a [body]
    that is no list and on an empty list; then nothing changes, so every
    lookup answers as before.  Every other reply carries a non-empty
    list, and that list replaces the snapshot whole and is saved,
    whatever its elements are.  No refresh raises. *)
Theorem update_items_cache_spec (reply : api_reply) (s : State) :
  (failed_reply reply ->
   update_items_cache reply s = s /\
   forall WRatio query threshold,
     fuzzy_search_item WRatio query (get_cached_items (update_items_cache reply s)) threshold
     = fuzzy_search_item WRatio query (get_cached_items s) threshold) /\
  (forall items, items <> [] -> reply = JsonObject true (BodyList items) ->
     let s' := update_items_cache reply s in
     get_cached_items s' = items /\ items_file s' = items /\
     auction_tickets s' = auction_tickets s /\ guild_configs s' = guild_configs s /\
     heap s' = heap s /\ channels s' = channels s /\ timers s' = timers s) /\
  (failed_reply reply \/
   exists items, items <> [] /\ reply = JsonObject true (BodyList items)) /\
  (forall i, exists r, fst (AuctionCog.refresh_cache i reply s) = Ok r) /\
  (match fetch_try reply with
   | Raise _ => fetch_items_from_api reply = []
   | Ok _ => True
   end).
Proof.
  split; [|split; [|split; [|split]]].
  - intros H. rewrite update_items_cache_failed by exact H. split; reflexivity.
  - intros items Hne ->. rewrite update_items_cache_ok by exact Hne.
    repeat split; reflexivity.
  - destruct reply as [| | |success body]; try (left; constructor).
    destruct success, body as [[|x l]|]; try (left; constructor).
    right. eexists. split; [|reflexivity]. discriminate.
  - intros i. unfold AuctionCog.refresh_cache.
    destruct (negb (administrator (user i))); eauto.
  - unfold fetch_items_from_api. destruct (fetch_try reply); [exact I | reflexivity].
Qed.

Lemma update_items_cache_spec_witness :
  update_items_cache NotJson started = started /\
  get_cached_items (update_items_cache (JsonObject true (BodyList [Entry pebble])) started)
  = [Entry pebble].
Proof.
  split.
  - apply (update_items_cache_spec NotJson started). constructor.
  - apply (update_items_cache_spec (JsonObject true (BodyList [Entry pebble])) started)
      with (items := [Entry pebble]).
    + discriminate.
    + reflexivity.
Defined.

(** C5, where the claim fails: the elements of the list are not looked
    at.  The payload [{"success": true, "body": [42]}] is malformed, yet
    it replaces the snapshot and is saved; the lookup that found Pebble
    before raises afterwards, and so does every creation request. *)
Lemma malformed_payload_replaces_snapshot :
  let reply := JsonObject true (BodyList [NotADict]) in
  let s' := update_items_cache reply started in
  get_cached_items started = map Entry catalog /\
  get_cached_items s' = [NotADict] /\
  items_file s' = [NotADict] /\
  fuzzy_search_item exact_score "Pebble" (get_cached_items started) (65 # 1)
  = Ok (Some pebble) /\
  fuzzy_search_item exact_score "Pebble" (get_cached_items s') (65 # 1)
  = Raise TypeError /\
  fst (AuctionCreateModal.on_submit exact_score admin_form as_admin (Ok 501) s')
  = Raise TypeError.
Proof. repeat split; vm_compute; reflexivity. Qed.

(** ** Ticket creation *)

Section SubmitFacts.

Variable WRatio : string -> string -> Q.
Variables (self : AuctionCreateModal.t) (i : Interaction) (s : State).

Local Abbreviation on_submit := (AuctionCreateModal.on_submit WRatio self i).

(** A request that is turned down leaves the whole state as it was. *)
Lemma on_submit_rejected platform r :
  fst (on_submit platform s) = Ok r -> is_rejection r ->
  snd (on_submit platform s) = s.
Proof.
  unfold AuctionCreateModal.on_submit.
  repeat case_match; simpl; intros [= <-]; simpl; intros Hr;
    solve [reflexivity | contradiction].
Qed.

(** An exception raised before the counter is touched leaves the state
    as it was, too. *)
Lemma on_submit_created_inv platform c n :
  fst (on_submit platform s) = Ok (TicketCreated c n) ->
  platform = Ok c /\
  n = default 0 (Config.ticket_counter (heap s !!! AuctionCreateModal.guild_config self)) + 1.
Proof.
  unfold AuctionCreateModal.on_submit.
  repeat case_match; simpl; intros [= <- <-]; subst; split; reflexivity.
Qed.

Section Validated.

Variables (quantity_val starting_bid_val : Z) (matched_item : Item.t) (value_each : Z).
Hypothesis Hparse :
  AuctionCreateModal.parse_inputs self = Ok (quantity_val, starting_bid_val).
Hypothesis Hitem :
  fuzzy_search_item WRatio (Str.strip (AuctionCreateModal.item_name self))
                    (get_cached_items s) (65 # 1) = Ok (Some matched_item).
Hypothesis Hvalue : Item.value matched_item = Some value_each.
Hypothesis Hpos : 0 < value_each.

Lemma on_submit_below_minimum platform :
  value_each * quantity_val < 10000000 ->
  on_submit platform s = (Ok (BelowMinimumWorth (value_each * quantity_val)), s).
Proof.
  intros Hlt. unfold AuctionCreateModal.on_submit.
  rewrite Hparse, Hitem, Hvalue. simpl.
  replace (value_each <=? 0) with false by (symmetry; apply Z.leb_gt; lia).
  replace (value_each * quantity_val <? 10000000) with true
    by (symmetry; apply Z.ltb_lt; lia).
  reflexivity.
Qed.

Lemma on_submit_not_below_minimum platform t :
  10000000 <= value_each * quantity_val ->
  fst (on_submit platform s) <> Ok (BelowMinimumWorth t).
Proof.
  intros Hge. unfold AuctionCreateModal.on_submit.
  rewrite Hparse, Hitem, Hvalue. simpl.
  replace (value_each <=? 0) with false by (symmetry; apply Z.leb_gt; lia).
  replace (value_each * quantity_val <? 10000000) with false
    by (symmetry; apply Z.ltb_ge; lia).
  repeat case_match; simpl; discriminate.
Qed.

Variable limit : Z.
Hypothesis Hworth : 10000000 <= value_each * quantity_val.
Hypothesis Hlimit : max_allowed (value_each * quantity_val) = Ok limit.


(** What an accepted request does: the counter of the form's
    configuration moves on by one, that configuration is stored for
    the guild, and one record is added under the new channel. *)
Lemma on_submit_accepted c :
  starting_bid_val <= limit ->
  let config := heap s !!! AuctionCreateModal.guild_config self in
  let n := default 0 (Config.ticket_counter config) + 1 in
  let ticket :=
    Ticket.mk n (guild_id i) (id (user i)) (Item.name matched_item)
              (Item.attachment matched_item) value_each quantity_val starting_bid_val in
  let s' := snd (on_submit (Ok c) s) in
  fst (on_submit (Ok c) s) = Ok (TicketCreated c n) /\
  auction_tickets s' = <[c := ticket]> (auction_tickets s) /\
  tickets_file s' = <[c := ticket]> (auction_tickets s) /\
  channels s' = {[c]} ∪ channels s /\
  heap s' = <[AuctionCreateModal.guild_config self := Config.set_ticket_counter n config]>
              (heap s) /\
  guild_configs s' = <[guild_id i := AuctionCreateModal.guild_config self]> (guild_configs s) /\
  cached_items s' = cached_items s /\ timers s' = timers s /\ now s' = now s.
Proof.
  intros Hle. unfold AuctionCreateModal.on_submit.
  rewrite Hparse, Hitem, Hvalue. simpl.
  replace (value_each <=? 0) with false by (symmetry; apply Z.leb_gt; lia).
  replace (value_each * quantity_val <? 10000000) with false
    by (symmetry; apply Z.ltb_ge; lia).
  rewrite Hlimit.
  replace (limit <? starting_bid_val) with false by (symmetry; apply Z.ltb_ge; lia).
  simpl. repeat split; reflexivity.
Qed.

End Validated.

(** Whatever the request, the tickets in the store afterwards are the
    old ones, or the old ones and one new ticket that passed both
    checks. *)
Lemma on_submit_tickets platform :
  auction_tickets (snd (on_submit platform s)) = auction_tickets s \/
  exists c ticket,
    platform = Ok c /\ ticket_ok ticket /\
    auction_tickets (snd (on_submit platform s)) = <[c := ticket]> (auction_tickets s).
Proof.
  unfold AuctionCreateModal.on_submit.
  repeat case_match; simpl; try (left; reflexivity).
  right. eexists _, _. split; [reflexivity|]. split; [|reflexivity].
  unfold ticket_ok, total_worth. simpl.
  match goal with H : (_ <? 10000000) = false |- _ => apply Z.ltb_ge in H end.
  match goal with H : (_ <? _) = false |- _ => apply Z.ltb_ge in H end.
  split; [assumption|]. eexists. split; [eassumption|]. assumption.
Qed.

End SubmitFacts.

(** C2: with the amounts parsed and the item resolved at a positive value,
    the request is turned down for its worth exactly when value times
    quantity is below 10,000,000; the state is then untouched. *)
Theorem below_minimum_worth_iff (WRatio : string -> string -> Q)
    (self : AuctionCreateModal.t) (i : Interaction) (platform : result Z) (s : State)
    (quantity_val starting_bid_val : Z) (matched_item : Item.t) (value_each : Z) :
  AuctionCreateModal.parse_inputs self = Ok (quantity_val, starting_bid_val) ->
  fuzzy_search_item WRatio (Str.strip (AuctionCreateModal.item_name self))
                    (get_cached_items s) (65 # 1) = Ok (Some matched_item) ->
  Item.value matched_item = Some value_each ->
  0 < value_each -> 0 < quantity_val ->
  ((exists t, fst (AuctionCreateModal.on_submit WRatio self i platform s)
              = Ok (BelowMinimumWorth t))
   <-> value_each * quantity_val < 10000000) /\
  (value_each * quantity_val < 10000000 ->
   AuctionCreateModal.on_submit WRatio self i platform s
   = (Ok (BelowMinimumWorth (value_each * quantity_val)), s)).
Proof.
  intros Hparse Hitem Hvalue Hpos Hq. split; [split|].
  - intros [t Ht].
    destruct (Z_lt_le_dec (value_each * quantity_val) 10000000) as [|Hge]; [assumption|].
    exfalso. eapply on_submit_not_below_minimum; eauto.
  - intros Hlt. eexists. erewrite on_submit_below_minimum; eauto.
  - intros Hlt. eapply on_submit_below_minimum; eauto.
Qed.

(** ** The owner-or-staff gate *)

Lemma authorized_spec ticket i :
  is_owner ticket i || is_staff i = true <-> authorized ticket i.
Proof.
  unfold authorized, is_owner, is_staff.
  rewrite orb_true_iff, Z.eqb_eq, existsb_exists. reflexivity.
Qed.

Lemma unauthorized_spec ticket i :
  is_owner ticket i || is_staff i = false <-> ~ authorized ticket i.
Proof.
  rewrite <- authorized_spec. destruct (is_owner ticket i || is_staff i); split; congruence.
Qed.

Section TicketFacts.

Variables (i : Interaction) (s : State) (ticket : Ticket.t).
Hypothesis Hticket : auction_tickets s !! channel_id i = Some ticket.

Lemma edit_bid_unauthorized new_bid :
~ authorized ticket i -> AuctionCog.edit_bid i new_bid s = (Ok Unauthorized, s).
Proof.
intros H%unauthorized_spec. unfold AuctionCog.edit_bid. now rewrite Hticket, H.
Qed.

Lemma edit_bid_authorized new_bid :
authorized ticket i -> fst (AuctionCog.edit_bid i new_bid s) <> Ok Unauthorized.
Proof.
intros H%authorized_spec. unfold AuctionCog.edit_bid. rewrite Hticket, H. simpl.
repeat case_match; simpl; discriminate.
Qed.

Lemma close_auction_unauthorized :
~ authorized ticket i -> AuctionCog.close_auction i s = (Ok Unauthorized, s).
Proof.
intros H%unauthorized_spec. unfold AuctionCog.close_auction. now rewrite Hticket, H.
Qed.

Lemma close_button_unauthorized :
~ authorized ticket i -> AuctionTicketView.close_button i s = (Ok Unauthorized, s).
Proof.
intros H%unauthorized_spec. unfold AuctionTicketView.close_button. now rewrite Hticket, H.
Qed.

Lemma cancel_button_unauthorized :
~ authorized ticket i -> AuctionTicketView.cancel_button i s = (Ok Unauthorized, s).
Proof.
intros H%unauthorized_spec. unfold AuctionTicketView.cancel_button. now rewrite Hticket, H.
Qed.

Lemma close_auction_authorized :
authorized ticket i ->
AuctionCog.close_auction i s =
(Ok TicketClosed,
 create_task_schedule_channel_deletion (channel_id i) 3600
   (save_tickets (with_auction_tickets (delete (channel_id i) (auction_tickets s)) s))).
Proof.
intros H%authorized_spec. unfold AuctionCog.close_auction. now rewrite Hticket, H.
Qed.

Lemma close_button_authorized :
authorized ticket i ->
AuctionTicketView.close_button i s =
(Ok TicketClosed,
 create_task_schedule_channel_deletion (channel_id i) 3600
   (save_tickets (with_auction_tickets (delete (channel_id i) (auction_tickets s)) s))).
Proof.
intros H%authorized_spec. unfold AuctionTicketView.close_button. now rewrite Hticket, H.
Qed.

Lemma cancel_button_authorized :
authorized ticket i ->
AuctionTicketView.cancel_button i s =
(Ok TicketCancelled,
 with_channels (channels s ∖ {[channel_id i]})
   (save_tickets (with_auction_tickets (delete (channel_id i) (auction_tickets s)) s))).
Proof.
intros H%authorized_spec. unfold AuctionTicketView.cancel_button. now rewrite Hticket, H.
Qed.

(** A bid edit by an authorized caller whose text parses.  The answer
  prints the new bid, which takes a bid of at most 4300 digits; the
  limit always can be printed. *)
Lemma edit_bid_checked new_bid new_bid_val limit :
authorized ticket i ->
parse_amount (Str.strip new_bid) = Ok new_bid_val ->
max_allowed (total_worth ticket) = Ok limit ->
AuctionCog.edit_bid i new_bid s =
if limit <? new_bid_val
then (if Str.has_text new_bid_val
      then Ok (BidExceedsRatio (total_worth ticket) limit new_bid_val)
      else Raise ValueError, s)
else (if Str.has_text new_bid_val then Ok (BidUpdated new_bid_val) else Raise ValueError,
      save_tickets
        (with_auction_tickets
           (<[channel_id i := Ticket.set_starting_bid new_bid_val ticket]>
              (auction_tickets s)) s)).
Proof.
intros H%authorized_spec Hp Hm. unfold AuctionCog.edit_bid, total_worth in *.
rewrite Hticket, H, Hp. cbn [negb]. cbv iota. cbv zeta. rewrite Hm. cbv iota.
rewrite (max_allowed_has_text _ _ Hm), andb_true_r.
destruct (limit <? new_bid_val), (Str.has_text new_bid_val); reflexivity.
Qed.

End TicketFacts.

Lemma edit_bid_not_found i new_bid s :
  auction_tickets s !! channel_id i = None ->
  AuctionCog.edit_bid i new_bid s = (Ok TicketNotFound, s).
Proof. intros H. unfold AuctionCog.edit_bid. now rewrite H. Qed.

(** C7: on an existing ticket, each of edit-bid, close (command and
    button) and cancel answers Unauthorized exactly when the caller is
    neither the owner nor holds a role with the manage-channels
    permission, and then leaves the state as it was. *)
Theorem owner_or_staff_gate (i : Interaction) (s : State) (ticket : Ticket.t)
    (new_bid : string) :
  auction_tickets s !! channel_id i = Some ticket ->
  (fst (AuctionCog.edit_bid i new_bid s) = Ok Unauthorized <-> ~ authorized ticket i) /\
  (fst (AuctionCog.close_auction i s) = Ok Unauthorized <-> ~ authorized ticket i) /\
  (fst (AuctionTicketView.close_button i s) = Ok Unauthorized <-> ~ authorized ticket i) /\
  (fst (AuctionTicketView.cancel_button i s) = Ok Unauthorized <-> ~ authorized ticket i) /\
  (~ authorized ticket i ->
   snd (AuctionCog.edit_bid i new_bid s) = s /\
   snd (AuctionCog.close_auction i s) = s /\
   snd (AuctionTicketView.close_button i s) = s /\
   snd (AuctionTicketView.cancel_button i s) = s) /\
  (authorized ticket i ->
   fst (AuctionCog.close_auction i s) = Ok TicketClosed /\
   fst (AuctionTicketView.close_button i s) = Ok TicketClosed /\
   fst (AuctionTicketView.cancel_button i s) = Ok TicketCancelled).
Proof.
  intros Hticket.
  repeat split.
  - intros Hr Ha. now apply (edit_bid_authorized i s ticket Hticket new_bid Ha).
  - intros Hn. now rewrite (edit_bid_unauthorized i s ticket Hticket new_bid Hn).
  - intros Hr Ha. rewrite (close_auction_authorized i s ticket Hticket Ha) in Hr. discriminate.
  - intros Hn. now rewrite (close_auction_unauthorized i s ticket Hticket Hn).
  - intros Hr Ha. rewrite (close_button_authorized i s ticket Hticket Ha) in Hr. discriminate.
  - intros Hn. now rewrite (close_button_unauthorized i s ticket Hticket Hn).
  - intros Hr Ha. rewrite (cancel_button_authorized i s ticket Hticket Ha) in Hr. discriminate.
  - intros Hn. now rewrite (cancel_button_unauthorized i s ticket Hticket Hn).
  - now rewrite (edit_bid_unauthorized i s ticket Hticket new_bid H).
  - now rewrite (close_auction_unauthorized i s ticket Hticket H).
  - now rewrite (close_button_unauthorized i s ticket Hticket H).
  - now rewrite (cancel_button_unauthorized i s ticket Hticket H).
  - now rewrite (close_auction_authorized i s ticket Hticket H).
  - now rewrite (close_button_authorized i s ticket Hticket H).
  - now rewrite (cancel_button_authorized i s ticket Hticket H).
Qed.

(** ** Closing a ticket and the deferred deletion *)

Lemma advance_channels dt s c :
  c ∈ channels (advance dt s) <->
  c ∈ channels s /\ ~ exists wake, In (c, wake) (timers s) /\ wake <= now s + dt.
Proof.
  unfold advance. simpl. rewrite elem_of_difference, elem_of_list_to_set.
  rewrite list_elem_of_In, in_map_iff.
  split; intros [Hc Hn]; (split; [exact Hc|]); intros Hex; apply Hn.
  - destruct Hex as (wake & Hin & Hle).
    exists (c, wake). split; [reflexivity|].
    apply list_elem_of_In, list_elem_of_filter. split.
    + unfold due. simpl. now apply Z.leb_le.
    + now apply list_elem_of_In.
  - destruct Hex as ([c' wake] & <- & Hin).
    apply list_elem_of_In, list_elem_of_filter in Hin as [Hdue Hin].
    exists wake. split; [now apply list_elem_of_In|].
    unfold due in Hdue. simpl in Hdue. now apply Z.leb_le.
Qed.

Section CloseFacts.

Variables (i : Interaction) (s : State) (ticket : Ticket.t).
Hypothesis Hticket : auction_tickets s !! channel_id i = Some ticket.
Hypothesis Hauth : authorized ticket i.
Hypothesis Hlive : channel_id i ∈ channels s.
Hypothesis Hfresh : forall wake, ~ In (channel_id i, wake) (timers s).

Local Abbreviation closed := (closed_state i s).

Lemma closed_record_gone :
auction_tickets closed !! channel_id i = None /\
tickets_file closed !! channel_id i = None /\
(forall c, c <> channel_id i -> auction_tickets closed !! c = auction_tickets s !! c).
Proof.
unfold closed_state. simpl. rewrite lookup_delete_eq. repeat split.
intros c Hc. now rewrite lookup_delete_ne.
Qed.

Lemma closed_edit_bid i' new_bid :
channel_id i' = channel_id i ->
AuctionCog.edit_bid i' new_bid closed = (Ok TicketNotFound, closed).
Proof.
intros E. apply edit_bid_not_found. rewrite E. apply closed_record_gone.
Qed.

Lemma closed_channel_scheduled :
channel_id i ∈ channels closed /\
timers closed = timers s ++ [(channel_id i, now s + 3600)] /\
now closed = now s.
Proof. unfold closed_state. simpl. repeat split. exact Hlive. Qed.

Lemma closed_channel_outlives dt :
0 <= dt < 3600 -> channel_id i ∈ channels (advance dt closed).
Proof.
intros Hdt. apply advance_channels. split; [apply closed_channel_scheduled|].
intros (wake & Hin & Hle). unfold closed_state in Hin, Hle. simpl in Hin, Hle.
apply in_app_or in Hin as [Hin | [[= <-] | []]].
- now apply (Hfresh wake).
- lia.
Qed.

Lemma closed_channel_deleted dt :
3600 <= dt -> channel_id i ∉ channels (advance dt closed).
Proof.
intros Hdt Hin. apply advance_channels in Hin as [_ Hn]. apply Hn.
exists (now s + 3600). split.
- unfold closed_state. simpl. apply in_or_app. right. now left.
- unfold closed_state. simpl. lia.
Qed.

End CloseFacts.

(** C6: closing (by command or by button) removes the record at once, in
    memory and in the file, so that a later edit-bid in the channel finds
    no ticket; the channel itself stays, with one deletion task due 3600
    time units later, outlives the record for any shorter wait and is
    deleted once 3600 units have passed. *)
Theorem close_removes_record_and_defers_deletion (i : Interaction) (s : State)
    (ticket : Ticket.t) :
  auction_tickets s !! channel_id i = Some ticket ->
  authorized ticket i ->
  channel_id i ∈ channels s ->
  (forall wake, ~ In (channel_id i, wake) (timers s)) ->
  AuctionTicketView.close_button i s = AuctionCog.close_auction i s /\
  let s' := snd (AuctionCog.close_auction i s) in
  fst (AuctionCog.close_auction i s) = Ok TicketClosed /\
  auction_tickets s' !! channel_id i = None /\
  tickets_file s' !! channel_id i = None /\
  (forall i' new_bid, channel_id i' = channel_id i ->
     AuctionCog.edit_bid i' new_bid s' = (Ok TicketNotFound, s')) /\
  channel_id i ∈ channels s' /\
  timers s' = timers s ++ [(channel_id i, now s + 3600)] /\
  (forall dt, 0 <= dt < 3600 -> channel_id i ∈ channels (advance dt s')) /\
  (forall dt, 3600 <= dt -> channel_id i ∉ channels (advance dt s')).
Proof.
  intros Hticket Hauth Hlive Hfresh.
  split; [reflexivity|].
  rewrite (close_auction_authorized i s ticket Hticket Hauth).
  cbn [fst snd].
  split; [reflexivity|].
  split; [apply closed_record_gone|].
  split; [apply closed_record_gone|].
  split; [intros; now apply closed_edit_bid|].
  split; [now apply closed_channel_scheduled|].
  split; [now apply closed_channel_scheduled|].
  split; [intros; now apply closed_channel_outlives|].
  intros; now apply closed_channel_deleted.
Qed.

(** ** The stored tickets along a run *)

Lemma ticket_ok_floor t :
  ticket_ok t -> total_worth t < exact_range ->
  Ticket.starting_bid t <= 3 * total_worth t / 10.
Proof.
  intros (Hworth & m & Hm & Hle) Hlt.
  rewrite max_allowed_exact in Hm by (unfold exact_range in Hlt; lia).
  injection Hm as <-. exact Hle.
Qed.

Lemma cancel_button_tickets i s :
  auction_tickets (snd (AuctionTicketView.cancel_button i s)) = auction_tickets s \/
  auction_tickets (snd (AuctionTicketView.cancel_button i s))
  = delete (channel_id i) (auction_tickets s).
Proof.
  unfold AuctionTicketView.cancel_button. repeat case_match; simpl; auto.
Qed.

Lemma close_button_tickets i s :
  auction_tickets (snd (AuctionTicketView.close_button i s)) = auction_tickets s \/
  auction_tickets (snd (AuctionTicketView.close_button i s))
  = delete (channel_id i) (auction_tickets s).
Proof.
  unfold AuctionTicketView.close_button. repeat case_match; simpl; auto.
Qed.

Lemma get_config_tickets gid s :
  auction_tickets (snd (get_config gid s)) = auction_tickets s.
Proof. unfold get_config. case_match; reflexivity. Qed.

Lemma setup_ticket_panel_tickets i s :
  auction_tickets (snd (AuctionCog.setup_ticket_panel i s)) = auction_tickets s.
Proof.
  unfold AuctionCog.setup_ticket_panel.
  pose proof (get_config_tickets (guild_id i) s).
  destruct (get_config (guild_id i) s). case_match; simpl in *; congruence.
Qed.

Lemma create_auction_tickets i s :
  auction_tickets (snd (AuctionCog.create_auction i s)) = auction_tickets s.
Proof.
  unfold AuctionCog.create_auction.
  pose proof (get_config_tickets (guild_id i) s).
  destruct (get_config (guild_id i) s). case_match; simpl in *; congruence.
Qed.

Lemma auction_config_tickets is_category i category_id staff_role s :
  auction_tickets (snd (AuctionCog.auction_config is_category i category_id staff_role s))
  = auction_tickets s.
Proof.
  unfold AuctionCog.auction_config.
  pose proof (get_config_tickets (guild_id i) s).
  destruct (get_config (guild_id i) s). repeat case_match; simpl in *; congruence.
Qed.

Lemma update_items_cache_tickets reply s :
  auction_tickets (update_items_cache reply s) = auction_tickets s.
Proof. unfold update_items_cache. case_match; reflexivity. Qed.

Lemma refresh_cache_tickets i reply s :
  auction_tickets (snd (AuctionCog.refresh_cache i reply s)) = auction_tickets s.
Proof.
  unfold AuctionCog.refresh_cache. case_match; simpl; [reflexivity|].
  apply update_items_cache_tickets.
Qed.

(** A bid edit keeps the store, or replaces the bid of the channel's
    ticket by one that is within the limit of that ticket. *)
Lemma edit_bid_tickets i new_bid s :
  auction_tickets (snd (AuctionCog.edit_bid i new_bid s)) = auction_tickets s \/
  exists ticket new_bid_val limit,
    auction_tickets s !! channel_id i = Some ticket /\
    max_allowed (total_worth ticket) = Ok limit /\ new_bid_val <= limit /\
    auction_tickets (snd (AuctionCog.edit_bid i new_bid s))
    = <[channel_id i := Ticket.set_starting_bid new_bid_val ticket]> (auction_tickets s).
Proof.
  unfold AuctionCog.edit_bid.
  repeat case_match; simpl; try (left; reflexivity);
    right; eexists _, _, _; (split; [reflexivity|]); (split; [eassumption|]);
    (split; [|reflexivity]);
    match goal with H : (_ <? _) = false |- _ => apply Z.ltb_ge in H; exact H end.
Qed.

Lemma step_tickets_ok WRatio s s' :
  step WRatio s s' -> tickets_ok s -> tickets_ok s'.
Proof.
  unfold tickets_ok.
  intros Hstep Hok. destruct Hstep.
  - destruct (on_submit_tickets WRatio self i s platform) as [-> | (c & t & _ & Ht & ->)];
      [assumption | now apply map_Forall_insert_2].
  - destruct (cancel_button_tickets i s) as [-> | ->];
      [assumption | now apply map_Forall_delete].
  - destruct (close_button_tickets i s) as [-> | ->];
      [assumption | now apply map_Forall_delete].
  - now rewrite setup_ticket_panel_tickets.
  - now rewrite auction_config_tickets.
  - now rewrite create_auction_tickets.
  - destruct (edit_bid_tickets i new_bid s)
      as [-> | (t & b & m & Ht & Hm & Hle & ->)]; [assumption|].
    apply map_Forall_insert_2; [|assumption].
    destruct (Hok _ _ Ht) as (Hworth & _).
    split; [exact Hworth|]. exists m. split; [exact Hm | exact Hle].
  - change (AuctionCog.close_auction i s) with (AuctionTicketView.close_button i s).
    destruct (close_button_tickets i s) as [-> | ->];
      [assumption | now apply map_Forall_delete].
  - now rewrite refresh_cache_tickets.
  - unfold AuctionCog.refresh_loop. now rewrite update_items_cache_tickets.
  - assumption.
Qed.

Lemma run_tickets_ok WRatio s s' :
  run WRatio s s' -> tickets_ok s -> tickets_ok s'.
Proof.
  induction 1 as [|s1 s2 s3 _ IH Hstep]; [trivial|].
  intros Hok. eapply step_tickets_ok; eauto.
Qed.

Lemma initial_tickets_ok : tickets_ok initial.
Proof. apply map_Forall_empty. Qed.

(** C3, as the code has it: along every run from a store whose tickets
    are within their limits, every stored ticket is worth at least
    10,000,000 and its starting bid is at most [int(total * 0.30)], which
    below the exact range is the floor of 30% of the total.  Creation and
    bid edits are the only steps that write a bid.  No lower bound on the
    bid is kept. *)
Theorem stored_bids_within_limit (WRatio : string -> string -> Q) (s s' : State) :
  tickets_ok s -> run WRatio s s' ->
  forall c t, auction_tickets s' !! c = Some t ->
    10000000 <= total_worth t /\
    (exists limit, max_allowed (total_worth t) = Ok limit /\ Ticket.starting_bid t <= limit) /\
    (total_worth t < exact_range -> Ticket.starting_bid t <= 3 * total_worth t / 10).
Proof.
  intros Hok Hrun c t Ht.
  pose proof (run_tickets_ok WRatio s s' Hrun Hok c t Ht) as Hticket.
  split; [apply Hticket|]. split; [apply Hticket|].
  now apply ticket_ok_floor.
Qed.
(** ** The 30% boundary *)


(** ** The worked examples *)

Lemma started_items :
  get_cached_items started = map Entry catalog /\ items_file started = map Entry catalog.
Proof. split; reflexivity. Qed.

Lemma scenario_panel :
  AuctionCog.setup_ticket_panel as_admin started = (Ok PanelCreated, Some panel, posted).
Proof. vm_compute. reflexivity. Qed.

Lemma scenario_command :
  fst (AuctionCog.create_auction as_admin posted)
  = (Ok ModalSent, Some (AuctionCreateModal.mk 2%positive)).
Proof. vm_compute. reflexivity. Qed.

Lemma scenario_run : run exact_score initial commanded.
Proof.
  eapply run_step; [eapply run_step; [eapply run_step; [apply run_nil|]|]|].
  - apply (step_refresh_loop exact_score (JsonObject true (BodyList (map Entry catalog)))
             initial).
  - apply (step_setup_ticket_panel exact_score as_admin started).
  - apply (step_create_auction exact_score as_admin posted).
Qed.

Lemma commanded_no_channel c : c ∉ channels commanded.
Proof.
  assert (channels commanded = ∅) as -> by (vm_compute; reflexivity).
  apply not_elem_of_empty.
Qed.

Lemma first_opened_ticket : auction_tickets first_opened !! 501 = Some first_ticket.
Proof. vm_compute. reflexivity. Qed.

Lemma huge_opened_ticket : auction_tickets huge_opened !! 501 = Some huge_ticket.
Proof. vm_compute. reflexivity. Qed.

Lemma bob_not_authorized : ~ authorized first_ticket (in_501 bob).
Proof. intros [H | (r & [] & _)]. discriminate H. Qed.

Lemma admin_owns_first : authorized first_ticket (in_501 admin).
Proof. left. reflexivity. Qed.

Lemma moderator_authorized : authorized first_ticket (in_501 moderator).
Proof. right. eexists. split; [left; reflexivity | reflexivity]. Qed.

(** *** The spec's two scenarios *)

Lemma blue_gem_three_accepted :
  AuctionCreateModal.on_submit exact_score admin_form as_admin (Ok 501) commanded
  = (Ok (TicketCreated 501 1), first_opened) /\
  guild_ticket_counter guild commanded = 0 /\
  guild_ticket_counter guild first_opened = 1.
Proof. repeat split; vm_compute; reflexivity. Qed.

Lemma below_minimum_worth_iff_witness :
  AuctionCreateModal.on_submit exact_score small_form as_admin (Ok 501) commanded
  = (Ok (BelowMinimumWorth (5000000 * 1)), commanded).
Proof.
  apply (below_minimum_worth_iff exact_score small_form as_admin (Ok 501) commanded
           1 1000000 blue_gem 5000000).
  - vm_compute. reflexivity.
  - vm_compute. reflexivity.
  - reflexivity.
  - lia.
  - lia.
  - lia.
Defined.

(** *** The gate *)

Lemma owner_or_staff_gate_witness :
  snd (AuctionCog.edit_bid (in_501 bob) "1m" first_opened) = first_opened /\
  fst (AuctionTicketView.cancel_button (in_501 moderator) first_opened) = Ok TicketCancelled.
Proof.
  split.
  - apply (owner_or_staff_gate (in_501 bob) first_opened first_ticket "1m").
    + vm_compute. reflexivity.
    + exact bob_not_authorized.
  - apply (owner_or_staff_gate (in_501 moderator) first_opened first_ticket "1m").
    + vm_compute. reflexivity.
    + exact moderator_authorized.
Defined.

(** *** Closing *)

Lemma close_removes_record_and_defers_deletion_witness :
  let s' := snd (AuctionCog.close_auction (in_501 admin) first_opened) in
  auction_tickets s' !! 501 = None /\
  AuctionCog.edit_bid (in_501 admin) "1m" s' = (Ok TicketNotFound, s') /\
  501 ∈ channels (advance 3599 s') /\
  501 ∉ channels (advance 3600 s').
Proof.
  destruct (close_removes_record_and_defers_deletion (in_501 admin) first_opened first_ticket)
    as (_ & _ & Hgone & _ & Hedit & _ & _ & Hlives & Hdeleted).
  - vm_compute. reflexivity.
  - exact admin_owns_first.
  - assert (channels first_opened = {[501]}) as -> by (vm_compute; reflexivity).
    now apply elem_of_singleton.
  - assert (timers first_opened = []) as -> by (vm_compute; reflexivity).
    intros wake [].
  - split; [exact Hgone|]. split; [now apply Hedit|].
    split; [apply Hlives; lia | apply Hdeleted; lia].
Defined.

(** *** The 30% boundary on the Blue Gem *)

Lemma commanded_finds_blue_gem :
  fuzzy_search_item exact_score "Blue Gem" (get_cached_items commanded) (65 # 1)
  = Ok (Some blue_gem).
Proof. vm_compute. reflexivity. Qed.



(** *** The stored tickets *)

Lemma first_opened_run : run exact_score initial first_opened.
Proof.
  eapply run_step; [exact scenario_run|].
  apply (step_submit exact_score admin_form as_admin (Ok 501) commanded).
  intros c _. apply commanded_no_channel.
Qed.

Lemma stored_bids_within_limit_witness :
  10000000 <= total_worth first_ticket /\
  (exists limit,
     max_allowed (total_worth first_ticket) = Ok limit /\
     Ticket.starting_bid first_ticket <= limit) /\
  (total_worth first_ticket < exact_range ->
   Ticket.starting_bid first_ticket <= 3 * total_worth first_ticket / 10).
Proof.
  apply (stored_bids_within_limit exact_score initial first_opened) with (c := 501).
  - exact initial_tickets_ok.
  - exact first_opened_run.
  - exact first_opened_ticket.
Defined.

(** A negative bid passes both checks and is stored: the lower bound of
    the spec's invariant does not hold in a reachable store. *)
Lemma negative_bid_stored :
  ~ (forall s', run exact_score initial s' ->
       forall c t, auction_tickets s' !! c = Some t ->
         0 <= Ticket.starting_bid t <= 3 * total_worth t / 10).
Proof.
  intros H.
  assert (run exact_score initial negative_opened) as Hrun.
  { eapply run_step; [exact scenario_run|].
    apply (step_submit exact_score negative_form as_admin (Ok 501) commanded).
    intros c _. apply commanded_no_channel. }
  assert (auction_tickets negative_opened !! 501
          = Some (Ticket.mk 1 guild 1 "Blue Gem" None 5000000 3 (-5000000))) as Ht
    by (vm_compute; reflexivity).
  destruct (H _ Hrun _ _ Ht) as [Hlow _]. simpl in Hlow. lia.
Qed.

(** ** The ticket counter *)

(** When the form holds the very dictionary that is stored for the guild,
    the new id is the guild's counter plus one, and the guild's counter
    becomes that id. *)
Lemma on_submit_ticket_id_of_stored_config WRatio self i s c n :
  guild_configs s !! guild_id i = Some (AuctionCreateModal.guild_config self) ->
  fst (AuctionCreateModal.on_submit WRatio self i (Ok c) s) = Ok (TicketCreated c n) ->
  n = guild_ticket_counter (guild_id i) s + 1 /\
  guild_ticket_counter (guild_id i)
    (snd (AuctionCreateModal.on_submit WRatio self i (Ok c) s)) = n.
Proof.
  intros Hstored Hres.
  pose proof (on_submit_created_inv WRatio self i s (Ok c) c n Hres) as [_ Hn].
  split.
  - unfold guild_ticket_counter. rewrite Hstored. exact Hn.
  - revert Hres. unfold AuctionCreateModal.on_submit.
    repeat case_match; simpl; intros [= <-]; subst.
    unfold guild_ticket_counter. simpl.
    rewrite lookup_insert_eq, lookup_total_insert_eq. reflexivity.
Qed.

(** A creation that is turned down creates no channel, stores no record,
    writes no file and leaves every counter alone; an accepted one adds
    exactly the one record, under the new channel. *)
Lemma on_submit_all_or_nothing WRatio self i s platform r :
  fst (AuctionCreateModal.on_submit WRatio self i platform s) = Ok r ->
  (is_rejection r /\ snd (AuctionCreateModal.on_submit WRatio self i platform s) = s) \/
  (exists c n ticket,
     r = TicketCreated c n /\ platform = Ok c /\ Ticket.ticket_id ticket = n /\
     n = default 0 (Config.ticket_counter (heap s !!! AuctionCreateModal.guild_config self)) + 1 /\
     auction_tickets (snd (AuctionCreateModal.on_submit WRatio self i platform s))
     = <[c := ticket]> (auction_tickets s) /\
     tickets_file (snd (AuctionCreateModal.on_submit WRatio self i platform s))
     = <[c := ticket]> (auction_tickets s) /\
     channels (snd (AuctionCreateModal.on_submit WRatio self i platform s))
     = {[c]} ∪ channels s).
Proof.
  unfold AuctionCreateModal.on_submit.
  repeat case_match; simpl; intros [= <-]; subst;
    try (left; split; [exact I | reflexivity]).
  right. eexists _, _, _. repeat split; reflexivity.
Qed.

Lemma on_submit_one_more_record WRatio self i s c n :
  c ∉ dom (auction_tickets s) ->
  fst (AuctionCreateModal.on_submit WRatio self i (Ok c) s) = Ok (TicketCreated c n) ->
  size (auction_tickets (snd (AuctionCreateModal.on_submit WRatio self i (Ok c) s)))
  = S (size (auction_tickets s)).
Proof.
  intros Hfresh Hres.
  destruct (on_submit_all_or_nothing WRatio self i s (Ok c) _ Hres)
    as [[Hrej _] | (c' & n' & t & Heq & _ & _ & _ & -> & _)]; [destruct Hrej|].
  injection Heq as <- <-.
  apply map_size_insert_None. now apply not_elem_of_dom.
Qed.

(** C4 at the failing input.  The guild has no stored configuration when
    the admin posts the panel and asks for a form by command, so the two
    hold different dictionaries.  The admin's form opens ticket 1 and its
    dictionary is stored for the guild, counter 1.  Alice's form from the
    panel then opens a ticket with id 1 again, not 2, and the guild's
    stored counter stays 1. *)
Theorem stale_form_reuses_ticket_id :
  run exact_score initial first_opened /\
  guild_ticket_counter guild first_opened = 1 /\
  AuctionCreateModal.on_submit exact_score alice_form as_alice (Ok 502) first_opened
  = (Ok (TicketCreated 502 1), second_opened) /\
  guild_ticket_counter guild second_opened = 1 /\
  Ticket.ticket_id <$> auction_tickets second_opened !! 501 = Some 1 /\
  Ticket.ticket_id <$> auction_tickets second_opened !! 502 = Some 1 /\
  Config.ticket_counter <$> config_file second_opened !! guild = Some (Some 1).
Proof.
  split; [exact first_opened_run|].
  repeat split; vm_compute; reflexivity.
Qed.

(** ** Channels, tickets and deletion tasks along a run *)

Lemma advance_timers dt s c w :
  In (c, w) (timers (advance dt s)) <-> In (c, w) (timers s) /\ now s + dt < w.
Proof.
  unfold advance. simpl. rewrite <- !list_elem_of_In, list_elem_of_filter.
  unfold due. simpl. rewrite Z.leb_gt. tauto.
Qed.

Lemma get_config_frame gid s :
  channels (snd (get_config gid s)) = channels s /\
  timers (snd (get_config gid s)) = timers s /\
  auction_tickets (snd (get_config gid s)) = auction_tickets s.
Proof. unfold get_config. case_match; repeat split; reflexivity. Qed.

Lemma well_formed_frame s s' :
  channels s' = channels s -> timers s' = timers s ->
  auction_tickets s' = auction_tickets s ->
  well_formed s -> well_formed s'.
Proof. unfold well_formed. intros -> -> ->. trivial. Qed.

Lemma well_formed_open c ticket s s' :
  c ∉ channels s ->
  channels s' = {[c]} ∪ channels s -> timers s' = timers s ->
  auction_tickets s' = <[c := ticket]> (auction_tickets s) ->
  well_formed s -> well_formed s'.
Proof.
  unfold well_formed. intros Hc -> -> -> (W1 & W2 & W3).
  split; [exact W1|]. split.
  - intros c' w Hin. apply elem_of_union_r. eauto.
  - intros c' t Ht. destruct (decide (c = c')) as [<-|Hne].
    + split; [apply elem_of_union_l; now apply elem_of_singleton|].
      intros w Hin. apply Hc. eauto.
    + rewrite lookup_insert_ne in Ht by exact Hne.
      destruct (W3 _ _ Ht) as [Hl Hn]. split; [now apply elem_of_union_r | exact Hn].
Qed.

Lemma well_formed_edit c ticket ticket' s s' :
  auction_tickets s !! c = Some ticket ->
  channels s' = channels s -> timers s' = timers s ->
  auction_tickets s' = <[c := ticket']> (auction_tickets s) ->
  well_formed s -> well_formed s'.
Proof.
  unfold well_formed. intros Hold -> -> -> (W1 & W2 & W3).
  split; [exact W1|]. split; [exact W2|].
  intros c' t Ht. destruct (decide (c = c')) as [<-|Hne]; [eauto|].
  rewrite lookup_insert_ne in Ht by exact Hne. eauto.
Qed.

Lemma well_formed_cancel c ticket s s' :
  auction_tickets s !! c = Some ticket ->
  channels s' = channels s ∖ {[c]} -> timers s' = timers s ->
  auction_tickets s' = delete c (auction_tickets s) ->
  well_formed s -> well_formed s'.
Proof.
  unfold well_formed. intros Hold -> -> -> (W1 & W2 & W3).
  destruct (W3 _ _ Hold) as [_ Hnone].
  split; [exact W1|]. split.
  - intros c' w Hin. apply elem_of_difference. split; [eauto|].
    intros ->%elem_of_singleton. now apply (Hnone w).
  - intros c' t [Hne Ht]%lookup_delete_Some.
    destruct (W3 _ _ Ht) as [Hl Hn]. split; [|exact Hn].
    apply elem_of_difference. split; [exact Hl|].
    intros ->%elem_of_singleton. congruence.
Qed.

Lemma well_formed_close c ticket wake s s' :
  auction_tickets s !! c = Some ticket ->
  channels s' = channels s -> timers s' = timers s ++ [(c, wake)] ->
  auction_tickets s' = delete c (auction_tickets s) ->
  well_formed s -> well_formed s'.
Proof.
  unfold well_formed. intros Hold -> -> -> (W1 & W2 & W3).
  destruct (W3 _ _ Hold) as [Hlive Hnone].
  split; [|split].
  - intros c' w w' [Hin | [Heq | []]]%in_app_or [Hin' | [Heq' | []]]%in_app_or.
    + eauto.
    + injection Heq' as <- <-. exfalso. now apply (Hnone w).
    + injection Heq as <- <-. exfalso. now apply (Hnone w').
    + congruence.
  - intros c' w [Hin | [[= <- <-] | []]]%in_app_or; eauto.
  - intros c' t [Hne Ht]%lookup_delete_Some.
    destruct (W3 _ _ Ht) as [Hl Hn]. split; [exact Hl|].
    intros w [Hin | [[= <- <-] | []]]%in_app_or; [now apply (Hn w) | congruence].
Qed.

Lemma well_formed_advance dt s : well_formed s -> well_formed (advance dt s).
Proof.
  intros (W1 & W2 & W3). split; [|split].
  - intros c w w' [Hin _]%advance_timers [Hin' _]%advance_timers. eauto.
  - intros c w [Hin Hlate]%advance_timers. apply advance_channels.
    split; [eauto|]. intros (w' & Hin' & Hdue).
    rewrite (W1 _ _ _ Hin Hin') in Hlate. lia.
  - intros c t Ht. change (auction_tickets (advance dt s)) with (auction_tickets s) in Ht.
    destruct (W3 _ _ Ht) as [Hl Hn]. split.
    + apply advance_channels. split; [exact Hl|].
      intros (w & Hin & _). now apply (Hn w).
    + intros w [Hin _]%advance_timers. now apply (Hn w).
Qed.

Lemma step_well_formed WRatio s s' : step WRatio s s' -> well_formed s -> well_formed s'.
Proof.
  intros Hstep Hwf. destruct Hstep.
  - destruct (fst (AuctionCreateModal.on_submit WRatio self i platform s)) as [r|e] eqn:Hr.
    + destruct (on_submit_all_or_nothing WRatio self i s platform r Hr)
        as [[_ ->] | (c & n & t & _ & -> & _ & _ & Ht & _ & Hc)]; [exact Hwf|].
      eapply (well_formed_open c t s); eauto.
      revert Hr. unfold AuctionCreateModal.on_submit.
      repeat case_match; simpl; intros; try discriminate; reflexivity.
    + revert Hr Hwf. unfold AuctionCreateModal.on_submit.
      repeat case_match; simpl; intros; try discriminate; try assumption;
        (eapply well_formed_frame; [| | |eassumption]; reflexivity).
  - unfold AuctionTicketView.cancel_button.
    destruct (auction_tickets s !! channel_id i) as [ticket|] eqn:Ht; [|exact Hwf].
    case_match; [exact Hwf|].
    eapply (well_formed_cancel (channel_id i) ticket s); eauto.
  - unfold AuctionTicketView.close_button.
    destruct (auction_tickets s !! channel_id i) as [ticket|] eqn:Ht; [|exact Hwf].
    case_match; [exact Hwf|].
    eapply (well_formed_close (channel_id i) ticket _ s); eauto.
  - unfold AuctionCog.setup_ticket_panel.
    pose proof (get_config_frame (guild_id i) s) as (? & ? & ?).
    destruct (get_config (guild_id i) s). case_match; simpl in *; [exact Hwf|].
    eapply well_formed_frame; eauto.
  - unfold AuctionCog.auction_config.
    pose proof (get_config_frame (guild_id i) s) as (? & ? & ?).
    destruct (get_config (guild_id i) s). simpl in *.
    repeat case_match; simpl in *; try exact Hwf;
      (eapply well_formed_frame; [| | |exact Hwf]; simpl; congruence).
  - unfold AuctionCog.create_auction.
    pose proof (get_config_frame (guild_id i) s) as (? & ? & ?).
    destruct (get_config (guild_id i) s). case_match; simpl in *; [exact Hwf|].
    eapply well_formed_frame; eauto.
  - unfold AuctionCog.edit_bid.
    destruct (auction_tickets s !! channel_id i) as [ticket|] eqn:Ht; [|exact Hwf].
    repeat case_match; simpl; try exact Hwf;
      (eapply (well_formed_edit (channel_id i) ticket _ s); eauto).
  - unfold AuctionCog.close_auction.
    destruct (auction_tickets s !! channel_id i) as [ticket|] eqn:Ht; [|exact Hwf].
    case_match; [exact Hwf|].
    eapply (well_formed_close (channel_id i) ticket _ s); eauto.
  - unfold AuctionCog.refresh_cache, update_items_cache.
    repeat case_match; simpl; try exact Hwf;
      (eapply well_formed_frame; [| | |exact Hwf]; reflexivity).
  - unfold AuctionCog.refresh_loop, update_items_cache.
    repeat case_match; simpl; try exact Hwf;
      (eapply well_formed_frame; [| | |exact Hwf]; reflexivity).
  - now apply well_formed_advance.
Qed.

Lemma initial_well_formed : well_formed initial.
Proof.
  split; [|split].
  - intros c w w' [].
  - intros c w [].
  - intros c t Ht. change (auction_tickets initial) with (∅ : gmap Z Ticket.t) in Ht.
    now rewrite lookup_empty in Ht.
Qed.

(** In every state the bot reaches from its start, the channel of a stored
    ticket is live and no deletion is pending for it. *)
Lemma run_well_formed WRatio s : run WRatio initial s -> well_formed s.
Proof.
  remember initial as s0 eqn:E. induction 1 as [|s1 s2 s3 _ IH Hstep].
  - subst. exact initial_well_formed.
  - eapply step_well_formed; eauto.
Qed.

Lemma stored_ticket_channel_live WRatio s c t :
  run WRatio initial s -> auction_tickets s !! c = Some t ->
  c ∈ channels s /\ forall wake, ~ In (c, wake) (timers s).
Proof.
  intros Hrun Ht. destruct (run_well_formed WRatio s Hrun) as (_ & _ & W3). eauto.
Qed.

(** * Further properties *)

(** ** The amount parser on the bot's own number formats *)

Lemma all_chars_app P s1 s2 :
  all_chars P (s1 +:+ s2) = all_chars P s1 && all_chars P s2.
Proof.
  induction s1 as [|c s1 IH]; simpl; [reflexivity|].
  rewrite IH. apply andb_assoc.
Qed.

Lemma all_chars_impl (P Q : ascii -> bool) s :
  (forall c, P c = true -> Q c = true) -> all_chars P s = true -> all_chars Q s = true.
Proof.
  intros HPQ. induction s as [|c s IH]; simpl; [reflexivity|].
  intros [Hc Hs]%andb_true_iff. rewrite (HPQ c Hc). simpl. auto.
Qed.

Lemma is_digit_inert c : is_digit c = true -> inert c = true.
Proof.
  destruct c as [[] [] [] [] [] [] [] []]; vm_compute; intros H;
    first [reflexivity | discriminate H].
Qed.

Lemma inert_lower s : all_chars inert s = true -> Str.lower s = s.
Proof.
  induction s as [|c s IH]; simpl; [reflexivity|].
  intros [Hc Hs]%andb_true_iff. rewrite IH by exact Hs. f_equal.
  unfold inert in Hc. repeat (apply andb_true_iff in Hc as [Hc ?]).
  now apply Ascii.eqb_eq.
Qed.

Lemma inert_remove_comma s :
  all_chars inert s = true -> Str.remove_char ","%char s = s.
Proof.
  induction s as [|c s IH]; simpl; [reflexivity|].
  intros [Hc Hs]%andb_true_iff. rewrite IH by exact Hs.
  unfold inert in Hc. repeat (apply andb_true_iff in Hc as [Hc ?]).
  destruct (Ascii.eqb c ","%char); [discriminate | reflexivity].
Qed.

Lemma inert_remove_underscore s :
  all_chars inert s = true -> Str.remove_char "_"%char s = s.
Proof.
  induction s as [|c s IH]; simpl; [reflexivity|].
  intros [Hc Hs]%andb_true_iff. rewrite IH by exact Hs.
  unfold inert in Hc. repeat (apply andb_true_iff in Hc as [Hc ?]).
  destruct (Ascii.eqb c "_"%char); [discriminate | reflexivity].
Qed.

Lemma inert_not_space c : inert c = true -> Str.is_space c = false.
Proof.
  unfold inert. intros Hc. repeat (apply andb_true_iff in Hc as [Hc ?]).
  now apply negb_true_iff.
Qed.

Lemma inert_rstrip s : all_chars inert s = true -> Str.rstrip s = s.
Proof.
  induction s as [|c s IH]; simpl; [reflexivity|].
  intros [Hc Hs]%andb_true_iff. rewrite IH by exact Hs.
  rewrite (inert_not_space c Hc). now destruct s.
Qed.

Lemma inert_strip s : all_chars inert s = true -> Str.strip s = s.
Proof.
  intros H. unfold Str.strip. rewrite inert_rstrip by exact H.
  destruct s as [|c s]; [reflexivity|]. simpl in *.
  apply andb_true_iff in H as [Hc _]. now rewrite (inert_not_space c Hc).
Qed.

Lemma literal_space_is_space c : Str.is_literal_space c = true -> Str.is_space c = true.
Proof.
  destruct c as [[] [] [] [] [] [] [] []]; vm_compute; intros H;
    first [reflexivity | discriminate H].
Qed.

Lemma inert_not_literal_space c : inert c = true -> Str.is_literal_space c = false.
Proof.
  intros H%inert_not_space.
  destruct (Str.is_literal_space c) eqn:E; [|reflexivity].
  apply literal_space_is_space in E. congruence.
Qed.

Lemma inert_skip_right s : all_chars inert s = true -> Str.skip_right s = s.
Proof.
  induction s as [|c s IH]; simpl; [reflexivity|].
  intros [Hc Hs]%andb_true_iff. rewrite IH by exact Hs.
  rewrite (inert_not_literal_space c Hc). now destruct s.
Qed.

Lemma inert_skip_spaces s : all_chars inert s = true -> Str.skip_spaces s = s.
Proof.
  intros H. unfold Str.skip_spaces. rewrite inert_skip_right by exact H.
  destruct s as [|c s]; [reflexivity|]. simpl in *.
  apply andb_true_iff in H as [Hc _]. now rewrite (inert_not_literal_space c Hc).
Qed.

Lemma inert_no_point s : all_chars inert s = true -> Str.contains "."%char s = false.
Proof.
  induction s as [|c s IH]; simpl; [reflexivity|].
  intros [Hc Hs]%andb_true_iff. rewrite IH by exact Hs.
  unfold inert in Hc. repeat (apply andb_true_iff in Hc as [Hc ?]).
  destruct (Ascii.eqb c "."%char); [discriminate | reflexivity].
Qed.

Lemma endswith_app s1 s2 c :
  s2 <> EmptyString -> Str.endswith (s1 +:+ s2) c = Str.endswith s2 c.
Proof.
  intros Hne. induction s1 as [|d s1 IH]; [reflexivity|].
  change (String d s1 +:+ s2) with (String d (s1 +:+ s2)).
  assert (s1 +:+ s2 <> EmptyString) as Hne'.
  { destruct s1; [exact Hne | discriminate]. }
  destruct (s1 +:+ s2) as [|x r] eqn:E; [congruence|].
  exact IH.
Qed.

Lemma drop_last_snoc s c : Str.drop_last (s +:+ String c EmptyString) = s.
Proof.
  induction s as [|d s IH]; [reflexivity|].
  change (String d s +:+ String c EmptyString) with (String d (s +:+ String c EmptyString)).
  destruct (s +:+ String c EmptyString) as [|x r] eqn:E; [destruct s; discriminate|].
  simpl. simpl in IH. now rewrite IH.
Qed.

Lemma endswith_digits s c :
  all_chars is_digit s = true -> is_digit c = false -> Str.endswith s c = false.
Proof.
  intros Hs Hc. induction s as [|d s IH]; [reflexivity|].
  simpl in *. apply andb_true_iff in Hs as [Hd Hs].
  destruct s; [|auto].
  destruct (Ascii.eqb_spec d c) as [->|]; [congruence | reflexivity].
Qed.

Lemma string_of_uint_digits d :
  all_chars is_digit (DecimalString.NilEmpty.string_of_uint d) = true.
Proof. induction d; simpl; auto. Qed.

Lemma string_of_uint_nonempty d :
  d <> Decimal.Nil -> DecimalString.NilEmpty.string_of_uint d <> EmptyString.
Proof. destruct d; [congruence | discriminate..]. Qed.

Lemma int_digits_acc d p :
  Str.int_digits (DecimalString.NilEmpty.string_of_uint d) (Z.pos p) true
  = Some (Z.pos (Pos.of_uint_acc d p)).
Proof.
  revert p. induction d; intros p; cbn [DecimalString.NilEmpty.string_of_uint Pos.of_uint_acc
                                         Str.int_digits];
    [reflexivity | change (Str.digit_val _) with (Some 0)
                 | change (Str.digit_val _) with (Some 1)
                 | change (Str.digit_val _) with (Some 2)
                 | change (Str.digit_val _) with (Some 3)
                 | change (Str.digit_val _) with (Some 4)
                 | change (Str.digit_val _) with (Some 5)
                 | change (Str.digit_val _) with (Some 6)
                 | change (Str.digit_val _) with (Some 7)
                 | change (Str.digit_val _) with (Some 8)
                 | change (Str.digit_val _) with (Some 9)];
    cbv iota beta;
    match goal with
    | |- Str.int_digits _ ?acc true = Some (Z.pos (Pos.of_uint_acc _ ?q)) =>
        replace acc with (Z.pos q) by lia
    end; apply IHd.
Qed.

Lemma int_digits_uint d b :
  d <> Decimal.Nil \/ b = true ->
  Str.int_digits (DecimalString.NilEmpty.string_of_uint d) 0 b = Some (Z.of_uint d).
Proof.
  revert b. induction d; intros b Hb;
    cbn [DecimalString.NilEmpty.string_of_uint Str.int_digits];
    [destruct Hb as [Hn | ->]; [congruence | reflexivity]
    | change (Str.digit_val _) with (Some 0)
    | change (Str.digit_val _) with (Some 1)
    | change (Str.digit_val _) with (Some 2)
    | change (Str.digit_val _) with (Some 3)
    | change (Str.digit_val _) with (Some 4)
    | change (Str.digit_val _) with (Some 5)
    | change (Str.digit_val _) with (Some 6)
    | change (Str.digit_val _) with (Some 7)
    | change (Str.digit_val _) with (Some 8)
    | change (Str.digit_val _) with (Some 9)];
    cbv iota beta.
  - change (10 * 0 + 0) with 0. rewrite IHd by (right; reflexivity). reflexivity.
  - change (10 * 0 + 1) with (Z.pos 1). apply int_digits_acc.
  - change (10 * 0 + 2) with (Z.pos 2). apply int_digits_acc.
  - change (10 * 0 + 3) with (Z.pos 3). apply int_digits_acc.
  - change (10 * 0 + 4) with (Z.pos 4). apply int_digits_acc.
  - change (10 * 0 + 5) with (Z.pos 5). apply int_digits_acc.
  - change (10 * 0 + 6) with (Z.pos 6). apply int_digits_acc.
  - change (10 * 0 + 7) with (Z.pos 7). apply int_digits_acc.
  - change (10 * 0 + 8) with (Z.pos 8). apply int_digits_acc.
  - change (10 * 0 + 9) with (Z.pos 9). apply int_digits_acc.
Qed.

Lemma count_digits_uint d :
  Str.count_digits (DecimalString.NilEmpty.string_of_uint d)
  = Z.of_nat (Decimal.nb_digits d).
Proof.
  induction d;
    cbn [DecimalString.NilEmpty.string_of_uint Str.count_digits Decimal.nb_digits];
    [reflexivity | change (Str.digit_val _) with (Some 0)
                 | change (Str.digit_val _) with (Some 1)
                 | change (Str.digit_val _) with (Some 2)
                 | change (Str.digit_val _) with (Some 3)
                 | change (Str.digit_val _) with (Some 4)
                 | change (Str.digit_val _) with (Some 5)
                 | change (Str.digit_val _) with (Some 6)
                 | change (Str.digit_val _) with (Some 7)
                 | change (Str.digit_val _) with (Some 8)
                 | change (Str.digit_val _) with (Some 9)];
    cbv iota beta; rewrite IHd; lia.
Qed.

(** A digit sequence after an accumulator is worth at least the
    accumulator shifted by its length. *)
Lemma of_uint_acc_lower d p :
  Z.pos p * 10 ^ Z.of_nat (Decimal.nb_digits d) <= Z.pos (Pos.of_uint_acc d p).
Proof.
  revert p. induction d; intros p; cbn [Pos.of_uint_acc Decimal.nb_digits];
    [change (10 ^ Z.of_nat 0) with 1; lia|..];
    (etransitivity; [|apply IHd]);
    rewrite Nat2Z.inj_succ, Z.pow_succ_r by lia;
    pose proof (Z.pow_pos_nonneg 10 (Z.of_nat (Decimal.nb_digits d)) ltac:(lia) ltac:(lia));
    nia.
Qed.

(** The decimal form of a positive number starts with a digit other than
    zero, so a number below [10^k] has at most [k] digits. *)
Lemma to_uint_digits p k :
  0 <= k -> Z.pos p < 10 ^ k -> Z.of_nat (Decimal.nb_digits (Pos.to_uint p)) <= k.
Proof.
  intros Hk Hp.
  pose proof (DecimalPos.Unsigned.of_to p) as Hof.
  assert (Decimal.unorm (Pos.to_uint p) = Pos.to_uint p) as Hnorm.
  { rewrite <- DecimalPos.Unsigned.to_of, Hof. reflexivity. }
  assert (Decimal.nzhead (Pos.to_uint p) = Pos.to_uint p) as Hhead.
  { rewrite <- Hnorm at 2. symmetry. apply DecimalFacts.unorm_nzhead.
    intros Hnil. apply DecimalFacts.unorm_0 in Hnil.
    apply (DecimalPos.Unsigned.to_uint_nonzero p). congruence. }
  pose proof (DecimalFacts.nzhead_nonzero (Pos.to_uint p)) as Hnz.
  rewrite Hhead in Hnz.
  destruct (Pos.to_uint p) as [|d|d|d|d|d|d|d|d|d|d] eqn:E;
    [discriminate Hof | exfalso; now apply (Hnz d) | ..];
    cbn [Pos.of_uint] in Hof; injection Hof as Hof;
    cbn [Decimal.nb_digits]; rewrite Nat2Z.inj_succ;
    match type of Hof with
    | Pos.of_uint_acc d ?q = p =>
        pose proof (of_uint_acc_lower d q) as Hlow; rewrite Hof in Hlow
    end;
    (destruct (Z_lt_le_dec (Z.of_nat (Decimal.nb_digits d)) k) as [|Hge]; [lia|]);
    exfalso;
    assert (10 ^ k <= 10 ^ Z.of_nat (Decimal.nb_digits d))
      by (apply Z.pow_le_mono_r; lia);
    nia.
Qed.

Lemma sign_digits s :
  all_chars is_digit s = true -> Str.sign s = (false, s).
Proof.
  destruct s as [|c s]; [reflexivity|]. simpl.
  intros [Hc _]%andb_true_iff. revert Hc.
  destruct c as [[] [] [] [] [] [] [] []]; vm_compute; intros H;
    first [reflexivity | discriminate H].
Qed.

Section SignedText.

Variables (negative : bool) (d : Decimal.uint).
Hypothesis Hd : d <> Decimal.Nil.
Hypothesis Hcount : Z.of_nat (Decimal.nb_digits d) <= 4300.

Local Abbreviation body := (DecimalString.NilEmpty.string_of_uint d).
Local Abbreviation text := (signed_text negative d).

Lemma signed_text_inert : all_chars inert text = true.
Proof.
unfold signed_text.
pose proof (all_chars_impl is_digit inert body is_digit_inert (string_of_uint_digits d)).
destruct negative; simpl; auto.
Qed.

Lemma signed_text_endswith c : is_digit c = false -> Str.endswith text c = false.
Proof.
intros Hc. unfold signed_text. destruct negative.
- change (String "-"%char body) with ("-" +:+ body).
  rewrite endswith_app by now apply string_of_uint_nonempty.
  apply endswith_digits; [apply string_of_uint_digits | exact Hc].
- apply endswith_digits; [apply string_of_uint_digits | exact Hc].
Qed.

Lemma signed_text_int : Str.int_of_str text = Ok (signed_value negative d).
Proof.
unfold Str.int_of_str. rewrite inert_skip_spaces by apply signed_text_inert.
assert ((Str.int_max_str_digits <? Str.count_digits body) = false) as Hfits.
{ apply Z.ltb_ge. rewrite count_digits_uint. exact Hcount. }
unfold signed_text, signed_value. destruct negative.
- cbn [Str.sign].
  rewrite int_digits_uint by (left; exact Hd). now rewrite Hfits.
- rewrite sign_digits by apply string_of_uint_digits.
  rewrite int_digits_uint by (left; exact Hd). now rewrite Hfits.
Qed.

Lemma parse_amount_signed_text : parse_amount text = Ok (signed_value negative d).
Proof.
unfold parse_amount.
rewrite inert_lower, inert_remove_comma, inert_remove_underscore, inert_strip
  by apply signed_text_inert.
rewrite !signed_text_endswith by reflexivity.
rewrite inert_no_point by apply signed_text_inert.
rewrite signed_text_int. simpl. f_equal. lia.
Qed.

Lemma parse_amount_signed_text_suffix (c : ascii) (multiplier : Z) :
(c, multiplier) = ("k"%char, 1000) \/ (c, multiplier) = ("m"%char, 1000000) \/
(c, multiplier) = ("b"%char, 1000000000) ->
parse_amount (text +:+ String c EmptyString) = Ok (signed_value negative d * multiplier).
Proof.
intros Hc.
assert (all_chars inert (text +:+ String c EmptyString) = true) as Hinert.
{ rewrite all_chars_app, signed_text_inert.
  destruct Hc as [[= -> _] | [[= -> _] | [= -> _]]]; reflexivity. }
unfold parse_amount.
rewrite inert_lower, inert_remove_comma, inert_remove_underscore, inert_strip
  by exact Hinert.
rewrite !endswith_app by discriminate.
destruct Hc as [[= -> ->] | [[= -> ->] | [= -> ->]]];
  cbn [Str.endswith];
  repeat match goal with
    | |- context [Ascii.eqb ?a ?b] =>
        let v := eval vm_compute in (Ascii.eqb a b) in change (Ascii.eqb a b) with v
    end;
  cbv iota; rewrite drop_last_snoc;
  rewrite inert_no_point by apply signed_text_inert;
  rewrite signed_text_int; reflexivity.
Qed.

End SignedText.

Lemma str_signed_text n :
  Z.abs n < 10 ^ 4300 ->
  exists negative d,
    d <> Decimal.Nil /\ Z.of_nat (Decimal.nb_digits d) <= 4300 /\
    Fmt.str n = signed_text negative d /\ signed_value negative d = n.
Proof.
  intros Hn. destruct n as [|p|p].
  - clear Hn. exists false, (Decimal.D0 Decimal.Nil).
    repeat split; [discriminate | cbn; lia].
  - exists false, (Pos.to_uint p).
    pose proof (DecimalPos.Unsigned.to_uint_nonnil p) as Hnil.
    split; [exact Hnil|]. split; [apply to_uint_digits; [clear; lia | exact Hn]|].
    clear Hn. split.
    + unfold Fmt.str, signed_text. simpl. now destruct (Pos.to_uint p).
    + unfold signed_value, Z.of_uint. now rewrite DecimalPos.Unsigned.of_to.
  - exists true, (Pos.to_uint p).
    pose proof (DecimalPos.Unsigned.to_uint_nonnil p) as Hnil.
    split; [exact Hnil|]. split; [apply to_uint_digits; [clear; lia | exact Hn]|].
    clear Hn. split.
    + unfold Fmt.str, signed_text. simpl. now destruct (Pos.to_uint p).
    + unfold signed_value, Z.of_uint. now rewrite DecimalPos.Unsigned.of_to.
Qed.

(** X1: an integer written out in decimal parses back to itself, and with
    a suffix to the exact multiple: whole amounts never pass through
    floating point.  (The bound is the 4300 digits up to which every
    CPython converts between text and [int].) *)
Theorem parse_amount_str (n : Z) :
  Z.abs n < 10 ^ 4300 ->
  parse_amount (Fmt.str n) = Ok n /\
  parse_amount (Fmt.str n +:+ "k") = Ok (n * 1000) /\
  parse_amount (Fmt.str n +:+ "m") = Ok (n * 1000000) /\
  parse_amount (Fmt.str n +:+ "b") = Ok (n * 1000000000).
Proof.
  intros Hn.
  destruct (str_signed_text n Hn) as (negative & d & Hd & Hcount & -> & <-).
  split; [now apply parse_amount_signed_text|].
  repeat split; apply parse_amount_signed_text_suffix; auto.
Qed.

Lemma lower_comma_group3 s :
  Str.remove_char ","%char (Str.lower (Fmt.group3 s))
  = Str.remove_char ","%char (Str.lower s).
Proof.
  induction s as [|c s IH]; [reflexivity|].
  cbn [Fmt.group3].
  destruct ((0 <? Z.of_nat (String.length s)) && (Z.of_nat (String.length s) mod 3 =? 0));
    cbn [Str.lower Str.remove_char].
  - change (Ascii.eqb (Str.lower_char ","%char) ","%char) with true. cbv iota.
    now rewrite IH.
  - now rewrite IH.
Qed.

Lemma cleaned_commas n : cleaned (Fmt.commas n) = cleaned (Fmt.str n).
Proof.
  unfold cleaned, Fmt.commas. f_equal.
  destruct (Fmt.str n) as [|c r]; [reflexivity|].
  assert (Str.remove_char ","%char (Str.lower (Fmt.group3 (String c r)))
          = Str.remove_char ","%char (Str.lower (String c r))) as Hplain
    by apply lower_comma_group3.
  destruct c as [[] [] [] [] [] [] [] []]; try exact Hplain.
  cbn [Str.lower Str.remove_char]. now rewrite lower_comma_group3.
Qed.

(** X2: every amount the bot prints with thousands separators (the
    [{n:,}] of its messages) parses back to the same integer (within the
    4300 digits up to which every CPython converts between text and
    [int]). *)
Theorem parse_amount_commas (n : Z) :
  Z.abs n < 10 ^ 4300 -> parse_amount (Fmt.commas n) = Ok n.
Proof.
  intros Hn. rewrite (parse_amount_cleaned _ _ (cleaned_commas n)).
  destruct (str_signed_text n Hn) as (negative & d & Hd & Hcount & -> & <-).
  now apply parse_amount_signed_text.
Qed.

Lemma parse_amount_str_witness :
  parse_amount (Fmt.str (-7901228811111103)) = Ok (-7901228811111103) /\
  parse_amount (Fmt.str (-7901228811111103) +:+ "k") = Ok (-7901228811111103 * 1000) /\
  parse_amount (Fmt.str (-7901228811111103) +:+ "m") = Ok (-7901228811111103 * 1000000) /\
  parse_amount (Fmt.str (-7901228811111103) +:+ "b") = Ok (-7901228811111103 * 1000000000).
Proof. apply (parse_amount_str (-7901228811111103)). vm_compute. reflexivity. Defined.

Lemma parse_amount_commas_witness :
  parse_amount (Fmt.commas 7901228811111103) = Ok 7901228811111103.
Proof. apply (parse_amount_commas 7901228811111103). vm_compute. reflexivity. Defined.

(** ** What the parser ignores *)

Lemma lower_char_idem c : Str.lower_char (Str.lower_char c) = Str.lower_char c.
Proof. destruct c as [[] [] [] [] [] [] [] []]; reflexivity. Qed.

Lemma lower_idem s : Str.lower (Str.lower s) = Str.lower s.
Proof.
  induction s as [|c s IH]; simpl; [reflexivity|]. now rewrite lower_char_idem, IH.
Qed.

Lemma space_cleaned c s :
  Str.is_space c = true -> cleaned (String c s) = String c (cleaned s).
Proof.
  unfold cleaned. cbn [Str.lower Str.remove_char].
  destruct c as [[] [] [] [] [] [] [] []]; vm_compute Str.is_space; intros H;
    first [discriminate H | reflexivity].
Qed.

Lemma cleaned_app s1 s2 : cleaned (s1 +:+ s2) = cleaned s1 +:+ cleaned s2.
Proof. unfold cleaned. now rewrite lower_app, !remove_char_app. Qed.

Lemma strip_cons_space c s :
  Str.is_space c = true -> Str.strip (String c s) = Str.strip s.
Proof.
  intros Hc. unfold Str.strip. cbn [Str.rstrip]. rewrite Hc.
  destruct (Str.rstrip s) as [|x t]; [reflexivity|].
  cbn [Str.lstrip]. now rewrite Hc.
Qed.

Lemma strip_cleaned_lstrip s :
  Str.strip (cleaned (Str.lstrip s)) = Str.strip (cleaned s).
Proof.
  induction s as [|c s IH]; [reflexivity|].
  cbn [Str.lstrip]. destruct (Str.is_space c) eqn:Hc; [|reflexivity].
  rewrite space_cleaned by exact Hc. rewrite strip_cons_space by exact Hc. exact IH.
Qed.

Lemma rstrip_idem s : Str.rstrip (Str.rstrip s) = Str.rstrip s.
Proof.
  induction s as [|c s IH]; [reflexivity|].
  cbn [Str.rstrip]. destruct (Str.rstrip s) as [|x t] eqn:E.
  - destruct (Str.is_space c) eqn:Hc; [reflexivity|]. cbn [Str.rstrip]. now rewrite Hc.
  - cbn [Str.rstrip]. cbn [Str.rstrip] in IH. now rewrite IH.
Qed.

Lemma rstrip_app x y : Str.rstrip (x +:+ y) = Str.rstrip (x +:+ Str.rstrip y).
Proof.
  induction x as [|c x IH]; [symmetry; apply rstrip_idem|].
  change (String c x +:+ y) with (String c (x +:+ y)).
  change (String c x +:+ Str.rstrip y) with (String c (x +:+ Str.rstrip y)).
  cbn [Str.rstrip]. now rewrite IH.
Qed.

Lemma rstrip_cons c s :
  Str.rstrip (String c s) = EmptyString /\ Str.rstrip s = EmptyString /\ Str.is_space c = true \/
  Str.rstrip (String c s) = String c (Str.rstrip s).
Proof.
  cbn [Str.rstrip]. destruct (Str.rstrip s) as [|x t]; [|now right].
  destruct (Str.is_space c); [left | right]; auto.
Qed.

Lemma rstrip_cleaned_rstrip s :
  Str.rstrip (cleaned (Str.rstrip s)) = Str.rstrip (cleaned s).
Proof.
  induction s as [|c s IH]; [reflexivity|].
  destruct (rstrip_cons c s) as [(-> & Hs & Hc) | ->].
  - rewrite space_cleaned by exact Hc. cbn [Str.rstrip].
    rewrite <- IH, Hs. change (cleaned EmptyString) with EmptyString.
    cbn [Str.rstrip]. now rewrite Hc.
  - change (String c (Str.rstrip s)) with (String c EmptyString +:+ Str.rstrip s).
    change (String c s) with (String c EmptyString +:+ s).
    rewrite !cleaned_app.
    rewrite (rstrip_app _ (cleaned (Str.rstrip s))), IH, <- rstrip_app. reflexivity.
Qed.

Lemma strip_cleaned_strip s :
  Str.strip (cleaned (Str.strip s)) = Str.strip (cleaned s).
Proof.
  unfold Str.strip at 2. rewrite strip_cleaned_lstrip.
  unfold Str.strip. now rewrite rstrip_cleaned_rstrip.
Qed.

Lemma parse_amount_stripped_cleaned s1 s2 :
  Str.strip (cleaned s1) = Str.strip (cleaned s2) -> parse_amount s1 = parse_amount s2.
Proof. unfold parse_amount, cleaned. now intros ->. Qed.

(** X3: the parser looks at its input only up to letter case and
    surrounding white space; in particular the [.strip()] its callers
    apply first changes nothing. *)
Theorem parse_amount_ignores_case_and_padding (s : string) :
  parse_amount (Str.lower s) = parse_amount s /\
  parse_amount (Str.strip s) = parse_amount s /\
  (forall c, Str.is_space c = true ->
     parse_amount (String c s) = parse_amount s /\
     parse_amount (s +:+ String c EmptyString) = parse_amount s).
Proof.
  split; [|split].
  - apply parse_amount_cleaned. unfold cleaned. now rewrite lower_idem.
  - apply parse_amount_stripped_cleaned, strip_cleaned_strip.
  - intros c Hc. split; apply parse_amount_stripped_cleaned.
    + rewrite space_cleaned by exact Hc. now apply strip_cons_space.
    + rewrite cleaned_app, (space_cleaned c EmptyString Hc).
      change (cleaned EmptyString) with EmptyString.
      unfold Str.strip. f_equal. rewrite rstrip_app.
      cbn [Str.rstrip]. rewrite Hc.
      f_equal. clear. induction (cleaned s) as [|x t IH]; [reflexivity|].
      change (String x t +:+ EmptyString) with (String x (t +:+ EmptyString)).
      now rewrite IH.
Qed.

Lemma parse_amount_ignores_case_and_padding_witness :
  parse_amount (String " "%char "1.5M") = parse_amount "1.5M" /\
  parse_amount ("1.5M" +:+ String " "%char EmptyString) = parse_amount "1.5M".
Proof. apply (parse_amount_ignores_case_and_padding "1.5M"). reflexivity. Defined.

(** ** What the parser can raise *)

Lemma float_of_str_raises s e : Str.float_of_str s = Raise e -> e = ValueError.
Proof.
  unfold Str.float_of_str. repeat case_match; intros [=]; congruence.
Qed.

Lemma int_of_str_raises s e : Str.int_of_str s = Raise e -> e = ValueError.
Proof.
  unfold Str.int_of_str. repeat case_match; intros [=]; congruence.
Qed.

Lemma to_int_raises x e :
  Float.to_int x = Raise e -> e = ValueError \/ e = OverflowError.
Proof. destruct x; intros [=]; auto. Qed.

Lemma parse_amount_raises s e :
  parse_amount s = Raise e -> e = ValueError \/ e = OverflowError.
Proof.
  unfold parse_amount.
  destruct (if Str.endswith _ "m"%char then _ else _) as [multiplier val] eqn:Hsuffix.
  assert (Float.of_int multiplier = Ok (Float.Finite multiplier 0)) as Hmult.
  { revert Hsuffix. repeat case_match; intros [= <- _]; vm_compute; reflexivity. }
  destruct (Str.contains "."%char val).
  - destruct (Str.float_of_str val) as [number|e'] eqn:Hf; cbn [bind].
    + unfold Float.mul_int. rewrite Hmult. cbn [bind]. apply to_int_raises.
    + intros [= <-]. left. eapply float_of_str_raises; eauto.
  - destruct (Str.int_of_str val) as [number|e'] eqn:Hi; cbn [bind]; intros [= <-].
    left. eapply int_of_str_raises; eauto.
Qed.

Lemma contains_lower s :
  Str.contains "."%char (Str.lower s) = Str.contains "."%char s.
Proof.
  induction s as [|x s IH]; [reflexivity|]. cbn [Str.lower Str.contains]. rewrite IH.
  f_equal. destruct x as [[] [] [] [] [] [] [] []]; reflexivity.
Qed.

Lemma contains_remove_char_false c d s :
  Str.contains c s = false -> Str.contains c (Str.remove_char d s) = false.
Proof.
  induction s as [|x s IH]; [reflexivity|]. cbn [Str.remove_char Str.contains].
  intros [Hx Hs]%orb_false_iff. destruct (Ascii.eqb x d); [auto|].
  cbn [Str.contains]. rewrite Hx. auto.
Qed.

Lemma contains_lstrip_false c s :
  Str.contains c s = false -> Str.contains c (Str.lstrip s) = false.
Proof.
  induction s as [|x s IH]; [reflexivity|]. cbn [Str.lstrip].
  destruct (Str.is_space x); [|trivial].
  cbn [Str.contains]. intros [_ Hs]%orb_false_iff. auto.
Qed.

Lemma contains_rstrip_false c s :
  Str.contains c s = false -> Str.contains c (Str.rstrip s) = false.
Proof.
  induction s as [|x s IH]; [reflexivity|]. cbn [Str.contains].
  intros [Hx Hs]%orb_false_iff.
  destruct (rstrip_cons x s) as [(-> & _) | ->]; [reflexivity|].
  cbn [Str.contains]. rewrite Hx. auto.
Qed.

Lemma contains_drop_last_false c s :
  Str.contains c s = false -> Str.contains c (Str.drop_last s) = false.
Proof.
  induction s as [|x s IH]; [reflexivity|]. cbn [Str.contains].
  intros [Hx Hs]%orb_false_iff. destruct s as [|y s]; [reflexivity|].
  change (Str.drop_last (String x (String y s))) with (String x (Str.drop_last (String y s))).
  cbn [Str.contains]. rewrite Hx. auto.
Qed.

Lemma parse_amount_without_point s :
  Str.contains "."%char s = false -> parse_amount s <> Raise OverflowError.
Proof.
  intros Hs.
  assert (Str.contains "."%char (Str.strip (cleaned s)) = false) as Hval.
  { unfold Str.strip, cleaned.
    apply contains_lstrip_false, contains_rstrip_false.
    do 2 apply contains_remove_char_false. now rewrite contains_lower. }
  unfold parse_amount. fold (cleaned s).
  assert (forall b : bool, Str.contains "."%char
                      (if b then Str.drop_last (Str.strip (cleaned s))
                       else Str.strip (cleaned s)) = false) as Hcut.
  { intros []; [now apply contains_drop_last_false | exact Hval]. }
  destruct (Str.endswith _ "m"%char);
    [|destruct (Str.endswith _ "k"%char); [|destruct (Str.endswith _ "b"%char)]];
    try rewrite (Hcut true); try rewrite (Hcut false);
    (destruct (Str.int_of_str _) as [number|e] eqn:Hi; cbn [bind]; [discriminate|];
     apply int_of_str_raises in Hi; congruence).
Qed.

(** X4: the parser raises nothing but [ValueError] and [OverflowError],
    and never [OverflowError] on text without a decimal point.  Its
    callers catch the first only: a [ValueError] is answered as an invalid
    amount, an [OverflowError] leaves the handler as an exception; either
    way the state is as before. *)
Theorem parse_amount_error_kinds :
  (forall s e, parse_amount s = Raise e -> e = ValueError \/ e = OverflowError) /\
  (forall s, Str.contains "."%char s = false -> parse_amount s <> Raise OverflowError) /\
  (forall WRatio self i platform s e,
     AuctionCreateModal.parse_inputs self = Raise e ->
     AuctionCreateModal.on_submit WRatio self i platform s
     = (match e with ValueError => Ok InvalidAmount | _ => Raise e end, s)) /\
  (forall i new_bid s ticket e,
     auction_tickets s !! channel_id i = Some ticket ->
     authorized ticket i ->
     parse_amount (Str.strip new_bid) = Raise e ->
     AuctionCog.edit_bid i new_bid s
     = (match e with ValueError => Ok InvalidAmount | _ => Raise e end, s)).
Proof.
  split; [exact parse_amount_raises|]. split; [exact parse_amount_without_point|]. split.
  - intros WRatio self i platform s e H. unfold AuctionCreateModal.on_submit.
    rewrite H. now destruct e.
  - intros i new_bid s ticket e Ht Ha%authorized_spec Hp. unfold AuctionCog.edit_bid.
    rewrite Ht, Ha. cbn [negb]. rewrite Hp. now destruct e.
Qed.

Lemma parse_amount_error_kinds_witness :
  AuctionCog.edit_bid (in_501 admin) "1.e400" first_opened
  = (Raise OverflowError, first_opened) /\
  AuctionCog.edit_bid (in_501 admin) "1.e" first_opened
  = (Ok InvalidAmount, first_opened).
Proof.
  split.
  - apply (parse_amount_error_kinds) with (ticket := first_ticket) (e := OverflowError).
    + exact first_opened_ticket.
    + exact admin_owns_first.
    + vm_compute. reflexivity.
  - apply (parse_amount_error_kinds) with (ticket := first_ticket) (e := ValueError).
    + exact first_opened_ticket.
    + exact admin_owns_first.
    + vm_compute. reflexivity.
Defined.

(** ** More on ticket creation *)

Section SubmitMore.

Variable WRatio : string -> string -> Q.
Variables (self : AuctionCreateModal.t) (i : Interaction) (s : State).
Variables (quantity_val starting_bid_val : Z) (matched_item : Item.t) (value_each limit : Z).
Hypothesis Hparse :
AuctionCreateModal.parse_inputs self = Ok (quantity_val, starting_bid_val).
Hypothesis Hitem :
fuzzy_search_item WRatio (Str.strip (AuctionCreateModal.item_name self))
                  (get_cached_items s) (65 # 1) = Ok (Some matched_item).
Hypothesis Hvalue : Item.value matched_item = Some value_each.
Hypothesis Hpos : 0 < value_each.
Hypothesis Hworth : 10000000 <= value_each * quantity_val.
Hypothesis Hlimit : max_allowed (value_each * quantity_val) = Ok limit.
Hypothesis Hbid : starting_bid_val <= limit.

Local Abbreviation config := (heap s !!! AuctionCreateModal.guild_config self).
Local Abbreviation n := (default 0 (Config.ticket_counter config) + 1).

(** The state after the counter was moved on and saved. *)
Lemma on_submit_platform_raises e :
let s' := snd (AuctionCreateModal.on_submit WRatio self i (Raise e) s) in
fst (AuctionCreateModal.on_submit WRatio self i (Raise e) s) = Raise e /\
heap s' = <[AuctionCreateModal.guild_config self := Config.set_ticket_counter n config]>
            (heap s) /\
guild_configs s' = <[guild_id i := AuctionCreateModal.guild_config self]> (guild_configs s) /\
config_file s' !! guild_id i = Some (Config.set_ticket_counter n config) /\
auction_tickets s' = auction_tickets s /\ tickets_file s' = tickets_file s /\
channels s' = channels s /\ timers s' = timers s /\
cached_items s' = cached_items s.
Proof.
unfold AuctionCreateModal.on_submit.
rewrite Hparse, Hitem, Hvalue. simpl.
replace (value_each <=? 0) with false by (symmetry; apply Z.leb_gt; lia).
replace (value_each * quantity_val <? 10000000) with false
  by (symmetry; apply Z.ltb_ge; lia).
rewrite Hlimit.
replace (limit <? starting_bid_val) with false by (symmetry; apply Z.ltb_ge; lia).
simpl. repeat split.
rewrite lookup_fmap, lookup_insert_eq. simpl. now rewrite lookup_total_insert_eq.
Qed.

Lemma on_submit_after_platform_raises e c :
fst (AuctionCreateModal.on_submit WRatio self i (Ok c)
       (snd (AuctionCreateModal.on_submit WRatio self i (Raise e) s)))
= Ok (TicketCreated c (n + 1)).
Proof.
destruct (on_submit_platform_raises e) as (_ & Hheap & _ & _ & _ & _ & _ & _ & Hitems).
set (s' := snd (AuctionCreateModal.on_submit WRatio self i (Raise e) s)) in *.
assert (fuzzy_search_item WRatio (Str.strip (AuctionCreateModal.item_name self))
          (get_cached_items s') (65 # 1) = Ok (Some matched_item)) as Hitem'
  by (unfold get_cached_items; rewrite Hitems; exact Hitem).
destruct (on_submit_accepted WRatio self i s' quantity_val starting_bid_val matched_item
            value_each Hparse Hitem' Hvalue Hpos limit Hworth Hlimit c Hbid) as (-> & _).
rewrite Hheap, lookup_total_insert_eq. reflexivity.
Qed.

End SubmitMore.

(** X5: when the request is valid but the platform refuses to create the
    channel, the error leaves [on_submit] after the counter was moved on
    and saved: no ticket, no channel, but the number is spent, and the
    next ticket opened from the form gets the number after it. *)
Theorem channel_failure_spends_ticket_number (WRatio : string -> string -> Q)
    (self : AuctionCreateModal.t) (i : Interaction) (s : State)
    (quantity_val starting_bid_val : Z) (matched_item : Item.t) (value_each limit : Z)
    (e : exn) :
  AuctionCreateModal.parse_inputs self = Ok (quantity_val, starting_bid_val) ->
  fuzzy_search_item WRatio (Str.strip (AuctionCreateModal.item_name self))
                    (get_cached_items s) (65 # 1) = Ok (Some matched_item) ->
  Item.value matched_item = Some value_each ->
  0 < value_each ->
  10000000 <= value_each * quantity_val ->
  max_allowed (value_each * quantity_val) = Ok limit ->
  starting_bid_val <= limit ->
  let n := default 0 (Config.ticket_counter
                        (heap s !!! AuctionCreateModal.guild_config self)) + 1 in
  let s' := snd (AuctionCreateModal.on_submit WRatio self i (Raise e) s) in
  fst (AuctionCreateModal.on_submit WRatio self i (Raise e) s) = Raise e /\
  auction_tickets s' = auction_tickets s /\ tickets_file s' = tickets_file s /\
  channels s' = channels s /\
  Config.ticket_counter (heap s' !!! AuctionCreateModal.guild_config self) = Some n /\
  Config.ticket_counter <$> config_file s' !! guild_id i = Some (Some n) /\
  forall c,
    fst (AuctionCreateModal.on_submit WRatio self i (Ok c) s') = Ok (TicketCreated c (n + 1)).
Proof.
  intros Hparse Hitem Hvalue Hpos Hworth Hlimit Hbid n s'.
  destruct (on_submit_platform_raises WRatio self i s quantity_val starting_bid_val
              matched_item value_each limit Hparse Hitem Hvalue Hpos Hworth Hlimit Hbid e)
    as (Hr & Hheap & _ & Hfile & Ht & Htf & Hc & _ & _).
  fold s' in Hr, Hheap, Hfile, Ht, Htf, Hc.
  split; [exact Hr|]. split; [exact Ht|]. split; [exact Htf|]. split; [exact Hc|].
  split; [rewrite Hheap, lookup_total_insert_eq; reflexivity|].
  split; [rewrite Hfile; reflexivity|].
  intros c. now apply (on_submit_after_platform_raises WRatio self i s quantity_val
                          starting_bid_val matched_item value_each limit).
Qed.

Lemma channel_failure_spends_ticket_number_witness :
  fst (AuctionCreateModal.on_submit exact_score admin_form as_admin (Raise HTTPException)
         commanded) = Raise HTTPException /\
  forall c,
    fst (AuctionCreateModal.on_submit exact_score admin_form as_admin (Ok c)
           (snd (AuctionCreateModal.on_submit exact_score admin_form as_admin
                   (Raise HTTPException) commanded)))
    = Ok (TicketCreated c (default 0 (Config.ticket_counter (heap commanded !!! 2%positive))
                           + 1 + 1)).
Proof.
  destruct (channel_failure_spends_ticket_number exact_score admin_form as_admin commanded
              3 4000000 blue_gem 5000000 4500000 HTTPException)
    as (Hr & _ & _ & _ & _ & _ & Hnext).
  - vm_compute. reflexivity.
  - exact commanded_finds_blue_gem.
  - reflexivity.
  - lia.
  - lia.
  - vm_compute. reflexivity.
  - lia.
  - split; [exact Hr | exact Hnext].
Defined.

(** ** Forms on the stored dictionary *)

Lemma get_config_stored gid s l :
  guild_configs s !! gid = Some l -> get_config gid s = (l, s).
Proof. intros H. unfold get_config. now rewrite H. Qed.

Lemma on_submit_stores_config WRatio self i s c n :
  fst (AuctionCreateModal.on_submit WRatio self i (Ok c) s) = Ok (TicketCreated c n) ->
  let s' := snd (AuctionCreateModal.on_submit WRatio self i (Ok c) s) in
  guild_configs s' !! guild_id i = Some (AuctionCreateModal.guild_config self) /\
  Config.ticket_counter (heap s' !!! AuctionCreateModal.guild_config self) = Some n /\
  Config.ticket_counter <$> config_file s' !! guild_id i = Some (Some n).
Proof.
  unfold AuctionCreateModal.on_submit.
  repeat case_match; simpl; intros [= <-]; subst.
  rewrite lookup_insert_eq, lookup_total_insert_eq, lookup_fmap, lookup_insert_eq.
  simpl. rewrite lookup_total_insert_eq. repeat split.
Qed.

(** X6: in the state a successful creation leaves, the guild's stored
    dictionary is the one the form worked on, with the ticket's id as its
    counter, in memory and in the file; a panel posted or a form asked
    for by command in that state holds that same dictionary and changes
    nothing; and a ticket opened in that state from any form on that
    dictionary gets the next id.  (This is about that state only: a form
    on another dictionary that is submitted later replaces the stored
    one.) *)
Theorem forms_share_stored_counter (WRatio : string -> string -> Q)
    (self : AuctionCreateModal.t) (i : Interaction) (s : State) (c n : Z) :
  fst (AuctionCreateModal.on_submit WRatio self i (Ok c) s) = Ok (TicketCreated c n) ->
  let l := AuctionCreateModal.guild_config self in
  let s' := snd (AuctionCreateModal.on_submit WRatio self i (Ok c) s) in
  guild_ticket_counter (guild_id i) s' = n /\
  Config.ticket_counter <$> config_file s' !! guild_id i = Some (Some n) /\
  (forall i', guild_id i' = guild_id i -> administrator (user i') = true ->
     AuctionCog.setup_ticket_panel i' s' = (Ok PanelCreated, Some (TicketPanelView.mk l), s') /\
     AuctionCog.create_auction i' s' = (Ok ModalSent, Some (AuctionCreateModal.mk l), s')) /\
  (forall self' i' c' n',
     AuctionCreateModal.guild_config self' = l -> guild_id i' = guild_id i ->
     fst (AuctionCreateModal.on_submit WRatio self' i' (Ok c') s') = Ok (TicketCreated c' n') ->
     n' = n + 1).
Proof.
  intros Hres l s'.
  destruct (on_submit_stores_config WRatio self i s c n Hres) as (Hstored & Hcounter & Hfile).
  fold s' l in Hstored, Hcounter, Hfile.
  split; [|split; [exact Hfile|split]].
  - unfold guild_ticket_counter. rewrite Hstored, Hcounter. reflexivity.
  - intros i' Hg Hadmin.
    unfold AuctionCog.setup_ticket_panel, AuctionCog.create_auction.
    rewrite Hadmin, Hg, (get_config_stored _ _ _ Hstored). split; reflexivity.
  - intros self' i' c' n' Hl Hg Hres'.
    apply on_submit_created_inv in Hres' as [_ ->].
    rewrite Hl, Hcounter. reflexivity.
Qed.

Lemma forms_share_stored_counter_witness :
  guild_ticket_counter guild first_opened = 1 /\
  AuctionCog.create_auction as_admin first_opened
  = (Ok ModalSent, Some (AuctionCreateModal.mk 2%positive), first_opened).
Proof.
  destruct (forms_share_stored_counter exact_score admin_form as_admin commanded 501 1)
    as (Hcounter & _ & Hshare & _).
  - vm_compute. reflexivity.
  - split; [exact Hcounter|]. now apply (Hshare as_admin).
Defined.

(** ** The administrator gate *)

(** X7: a caller without the administrator permission gets the
    admin-only answer from every administrative command, receives neither
    panel nor form, and leaves the state and the template file as they
    were. *)
Theorem admin_commands_gate (i : Interaction) (s : State) :
  administrator (user i) = false ->
  AuctionCog.setup_ticket_panel i s = (Ok AdminOnly, None, s) /\
  AuctionCog.create_auction i s = (Ok AdminOnly, None, s) /\
  (forall is_category category_id staff_role,
     AuctionCog.auction_config is_category i category_id staff_role s = (Ok AdminOnly, s)) /\
  (forall reply, AuctionCog.refresh_cache i reply s = (Ok AdminOnly, s)) /\
  (forall given file, customize_auc_panel i given file = (PanelAdminOnly, file)) /\
  (forall file, setup_ticket_panel_message i file = PanelAdminOnly).
Proof.
  intros H.
  unfold AuctionCog.setup_ticket_panel, AuctionCog.create_auction, AuctionCog.auction_config,
    AuctionCog.refresh_cache, customize_auc_panel, setup_ticket_panel_message.
  rewrite H. repeat split.
Qed.

Lemma admin_commands_gate_witness :
  AuctionCog.create_auction as_bob first_opened = (Ok AdminOnly, None, first_opened).
Proof. apply (admin_commands_gate as_bob first_opened). reflexivity. Defined.

(** ** Cancelling *)

(** X8: an authorized cancel removes the record from memory and from
    the file and deletes the channel at once, scheduling nothing; the
    other tickets stay as they are; and from then on edit-bid, close and
    cancel in that channel find no ticket and change nothing. *)
Theorem cancel_removes_record_and_channel (i : Interaction) (s : State) (ticket : Ticket.t) :
  auction_tickets s !! channel_id i = Some ticket ->
  authorized ticket i ->
  let s' := snd (AuctionTicketView.cancel_button i s) in
  fst (AuctionTicketView.cancel_button i s) = Ok TicketCancelled /\
  auction_tickets s' = delete (channel_id i) (auction_tickets s) /\
  tickets_file s' = delete (channel_id i) (auction_tickets s) /\
  (channel_id i ∉ channels s') /\
  (forall c, c <> channel_id i -> (c ∈ channels s' <-> c ∈ channels s)) /\
  timers s' = timers s /\
  heap s' = heap s /\ guild_configs s' = guild_configs s /\
  (forall i' new_bid, channel_id i' = channel_id i ->
     AuctionCog.edit_bid i' new_bid s' = (Ok TicketNotFound, s') /\
     AuctionCog.close_auction i' s' = (Ok TicketNotFound, s') /\
     AuctionTicketView.close_button i' s' = (Ok TicketNotFound, s') /\
     AuctionTicketView.cancel_button i' s' = (Ok TicketNotFound, s')).
Proof.
  intros Hticket Hauth.
  rewrite (cancel_button_authorized i s ticket Hticket Hauth). cbn [fst snd].
  split; [reflexivity|]. split; [reflexivity|]. split; [reflexivity|].
  split; [simpl; intros [_ Hn]%elem_of_difference; apply Hn; now apply elem_of_singleton|].
  split; [intros c Hc; simpl; rewrite elem_of_difference, elem_of_singleton; tauto|].
  split; [reflexivity|]. split; [reflexivity|]. split; [reflexivity|].
  intros i' new_bid E.
  unfold AuctionCog.edit_bid, AuctionCog.close_auction, AuctionTicketView.close_button,
    AuctionTicketView.cancel_button.
  simpl. rewrite E, lookup_delete_eq. repeat split.
Qed.

Lemma cancel_removes_record_and_channel_witness :
  fst (AuctionTicketView.cancel_button (in_501 moderator) first_opened) = Ok TicketCancelled /\
  501 ∉ channels (snd (AuctionTicketView.cancel_button (in_501 moderator) first_opened)).
Proof.
  destruct (cancel_removes_record_and_channel (in_501 moderator) first_opened first_ticket)
    as (Hr & _ & _ & Hgone & _).
  - exact first_opened_ticket.
  - exact moderator_authorized.
  - split; [exact Hr | exact Hgone].
Defined.

(** ** Editing the bid *)

Lemma dumpable_spec (tickets : gmap Z Ticket.t) :
  dumpable tickets = true <-> map_Forall (fun _ t => ticket_has_text t = true) tickets.
Proof.
  unfold dumpable. rewrite forallb_forall. split.
  - intros H c t Hc. apply (H (c, t)). apply list_elem_of_In.
    now apply elem_of_map_to_list.
  - intros H [c t] Hin%list_elem_of_In%elem_of_map_to_list. exact (H c t Hin).
Qed.

Lemma dumpable_edit (tickets : gmap Z Ticket.t) c ticket bid :
  tickets !! c = Some ticket -> dumpable tickets = true ->
  dumpable (<[c := Ticket.set_starting_bid bid ticket]> tickets) = Str.has_text bid.
Proof.
  intros Hc Hd. pose proof (proj1 (dumpable_spec tickets) Hd) as Hall.
  pose proof (Hall c ticket Hc) as Ht. unfold ticket_has_text in Ht.
  repeat (apply andb_true_iff in Ht as [Ht ?]).
  destruct (Str.has_text bid) eqn:Hbid.
  - apply dumpable_spec, map_Forall_insert_2; [|exact Hall].
    unfold ticket_has_text. cbn [Ticket.set_starting_bid Ticket.ticket_id Ticket.user_id
      Ticket.value Ticket.quantity Ticket.starting_bid].
    repeat (apply andb_true_iff; split); assumption.
  - destruct (dumpable (<[c := Ticket.set_starting_bid bid ticket]> tickets)) eqn:E;
      [|reflexivity].
    pose proof (proj1 (dumpable_spec _) E c _ (lookup_insert_eq _ _ _)) as Hnew.
    unfold ticket_has_text in Hnew. apply andb_true_iff in Hnew as [_ Hnew].
    cbn [Ticket.set_starting_bid Ticket.starting_bid] in Hnew. congruence.
Qed.

(** X9: an accepted bid edit, of a bid of at most 4300 digits, replaces
    the starting bid of the channel's ticket and nothing else: the ticket
    keeps its id, owner, item, value and quantity, the other tickets, the
    configurations, the channels and the deletion tasks stay as they are,
    and the new store is handed to the ticket file, which holds it when
    every number of the old store could be written.  A later accepted
    edit overrides it: only the last bid counts. *)
Theorem edit_bid_changes_only_the_bid (i : Interaction) (s : State) (ticket : Ticket.t)
    (new_bid : string) (new_bid_val limit : Z) :
  auction_tickets s !! channel_id i = Some ticket ->
  authorized ticket i ->
  parse_amount (Str.strip new_bid) = Ok new_bid_val ->
  max_allowed (Ticket.value ticket * Ticket.quantity ticket) = Ok limit ->
  new_bid_val <= limit ->
  Z.abs new_bid_val < 10 ^ 4300 ->
  let s' := snd (AuctionCog.edit_bid i new_bid s) in
  fst (AuctionCog.edit_bid i new_bid s) = Ok (BidUpdated new_bid_val) /\
  auction_tickets s' !! channel_id i
  = Some (Ticket.mk (Ticket.ticket_id ticket) (Ticket.guild_id ticket) (Ticket.user_id ticket)
            (Ticket.item_name ticket) (Ticket.attachment ticket) (Ticket.value ticket)
            (Ticket.quantity ticket) new_bid_val) /\
  (forall c, c <> channel_id i -> auction_tickets s' !! c = auction_tickets s !! c) /\
  (dumpable (auction_tickets s) = true ->
   tickets_on_disk s' = Holds (auction_tickets s')) /\
  heap s' = heap s /\ guild_configs s' = guild_configs s /\ config_file s' = config_file s /\
  channels s' = channels s /\ timers s' = timers s /\ cached_items s' = cached_items s /\
  (forall i2 later later_val,
     channel_id i2 = channel_id i -> authorized ticket i2 ->
     parse_amount (Str.strip later) = Ok later_val -> later_val <= limit ->
     auction_tickets (snd (AuctionCog.edit_bid i2 later s'))
     = auction_tickets (snd (AuctionCog.edit_bid i2 later s))).
Proof.
  intros Hticket Hauth Hparse Hlimit Hle Htext%has_text_spec.
  rewrite (edit_bid_checked i s ticket Hticket new_bid new_bid_val limit Hauth Hparse Hlimit).
  replace (limit <? new_bid_val) with false by (symmetry; apply Z.ltb_ge; lia).
  rewrite Htext. cbn [fst snd].
  split; [reflexivity|]. split; [simpl; now rewrite lookup_insert_eq|].
  split; [intros c Hc; simpl; now rewrite lookup_insert_ne|].
  split.
  { intros Hd. unfold tickets_on_disk.
    cbn [save_tickets with_auction_tickets tickets_file auction_tickets].
    now rewrite (dumpable_edit _ _ _ _ Hticket Hd), Htext. }
  repeat (split; [reflexivity|]).
  intros i2 later later_val E Hauth2 Hparse2 Hle2.
  assert (authorized (Ticket.set_starting_bid new_bid_val ticket) i2) as Hauth2'
    by exact Hauth2.
  erewrite (edit_bid_checked i2 _ (Ticket.set_starting_bid new_bid_val ticket));
    [| simpl; rewrite E; apply lookup_insert_eq | exact Hauth2' | exact Hparse2 | exact Hlimit].
  erewrite (edit_bid_checked i2 s ticket);
    [| rewrite E; exact Hticket | exact Hauth2 | exact Hparse2 | exact Hlimit].
  replace (limit <? later_val) with false by (symmetry; apply Z.ltb_ge; lia).
  simpl. rewrite E, insert_insert_eq. reflexivity.
Qed.

Lemma edit_bid_changes_only_the_bid_witness :
  fst (AuctionCog.edit_bid (in_501 admin) "1m" first_opened) = Ok (BidUpdated 1000000) /\
  auction_tickets (snd (AuctionCog.edit_bid (in_501 admin) "1m" first_opened)) !! 501
  = Some (Ticket.mk 1 guild 1 "Blue Gem" None 5000000 3 1000000).
Proof.
  destruct (edit_bid_changes_only_the_bid (in_501 admin) first_opened first_ticket "1m"
              1000000 4500000) as (Hr & Ht & _).
  - exact first_opened_ticket.
  - exact admin_owns_first.
  - vm_compute. reflexivity.
  - vm_compute. reflexivity.
  - lia.
  - apply Z.ltb_lt. vm_compute. reflexivity.
  - split; [exact Hr | exact Ht].
Defined.

(** X20: a bid of more than 4300 digits that passes the limit, as a
    negative one does, is stored before anything is printed: the handler
    then raises on its answer, the store holds the bid, and the dump of
    the store broke off, so the ticket file is corrupt and reads back as
    the empty default. *)
Theorem overlong_bid_corrupts_ticket_file (i : Interaction) (s : State) (ticket : Ticket.t)
    (new_bid : string) (new_bid_val limit : Z) :
  auction_tickets s !! channel_id i = Some ticket ->
  authorized ticket i ->
  parse_amount (Str.strip new_bid) = Ok new_bid_val ->
  max_allowed (Ticket.value ticket * Ticket.quantity ticket) = Ok limit ->
  new_bid_val <= limit ->
  10 ^ 4300 <= Z.abs new_bid_val ->
  let s' := snd (AuctionCog.edit_bid i new_bid s) in
  fst (AuctionCog.edit_bid i new_bid s) = Raise ValueError /\
  auction_tickets s' !! channel_id i = Some (Ticket.set_starting_bid new_bid_val ticket) /\
  (forall c, c <> channel_id i -> auction_tickets s' !! c = auction_tickets s !! c) /\
  tickets_on_disk s' = Corrupt /\
  load_json (tickets_on_disk s') (∅ : gmap Z Ticket.t) = ∅.
Proof.
  intros Hticket Hauth Hparse Hlimit Hle Htext%has_text_false.
  rewrite (edit_bid_checked i s ticket Hticket new_bid new_bid_val limit Hauth Hparse Hlimit).
  replace (limit <? new_bid_val) with false by (symmetry; apply Z.ltb_ge; lia).
  rewrite Htext. cbn [fst snd].
  split; [reflexivity|]. split; [simpl; now rewrite lookup_insert_eq|].
  split; [intros c Hc; simpl; now rewrite lookup_insert_ne|].
  assert (dumpable (<[channel_id i := Ticket.set_starting_bid new_bid_val ticket]>
                      (auction_tickets s)) = false) as Hd.
  { destruct (dumpable _) eqn:E; [|reflexivity].
    pose proof (proj1 (dumpable_spec _) E (channel_id i) _ (lookup_insert_eq _ _ _)) as Hnew.
    unfold ticket_has_text in Hnew. apply andb_true_iff in Hnew as [_ Hnew].
    cbn [Ticket.set_starting_bid Ticket.starting_bid] in Hnew. congruence. }
  unfold tickets_on_disk.
  cbn [save_tickets with_auction_tickets tickets_file auction_tickets].
  rewrite Hd. split; reflexivity.
Qed.

Lemma overlong_bid_corrupts_ticket_file_witness :
  fst (AuctionCog.edit_bid (in_501 admin) overlong_bid first_opened) = Raise ValueError /\
  tickets_on_disk (snd (AuctionCog.edit_bid (in_501 admin) overlong_bid first_opened))
  = Corrupt.
Proof.
  destruct (overlong_bid_corrupts_ticket_file (in_501 admin) first_opened first_ticket
              overlong_bid (- (10 ^ 4300 - 1) * 1000000000) 4500000)
    as (Hr & _ & _ & Hd & _).
  - exact first_opened_ticket.
  - exact admin_owns_first.
  - vm_compute. reflexivity.
  - vm_compute. reflexivity.
  - apply Z.leb_le. vm_compute. reflexivity.
  - apply Z.leb_le. vm_compute. reflexivity.
  - split; [exact Hr | exact Hd].
Defined.

(** ** Files and cache along a run *)

Ltac unfold_handlers :=
  unfold AuctionCreateModal.on_submit, AuctionTicketView.cancel_button,
    AuctionTicketView.close_button, AuctionCog.setup_ticket_panel,
    AuctionCog.auction_config, AuctionCog.create_auction, AuctionCog.edit_bid,
    AuctionCog.close_auction, AuctionCog.refresh_cache, AuctionCog.refresh_loop,
    update_items_cache, get_config, advance.

Lemma step_files_follow WRatio s s' : step WRatio s s' -> files_follow s -> files_follow s'.
Proof.
  unfold files_follow. intros Hstep [Ht Hi].
  destruct Hstep; unfold_handlers; repeat case_match; simplify_eq/=; auto.
Qed.

Lemma step_cached_items WRatio s s' :
  step WRatio s s' ->
  cached_items s' = cached_items s \/
  exists reply, cached_items s' = fetch_items_from_api reply /\ cached_items s' <> [].
Proof.
  intros Hstep.
  destruct Hstep; unfold_handlers; repeat case_match; simplify_eq/=; auto;
    right; eexists; (split; [symmetry; eassumption | discriminate]).
Qed.

(** X10: every handler that changes the ticket store or the item
    snapshot hands the new value to its file before it ends: from a state
    where the values last handed over are what memory holds, every run of
    handlers, refreshes and lapses of time ends in such a state.  The
    ticket file then holds the store exactly when every number in the
    store can be written with its 4300 digits at most; otherwise the dump
    broke off and the file is corrupt. *)
Theorem files_follow_memory (WRatio : string -> string -> Q) (s s' : State) :
  files_follow s -> run WRatio s s' ->
  items_file s' = cached_items s' /\
  tickets_on_disk s'
  = (if dumpable (auction_tickets s') then Holds (auction_tickets s') else Corrupt).
Proof.
  intros Hs Hrun.
  assert (files_follow s') as [Ht Hi].
  { induction Hrun as [|s1 s2 s3 _ IH Hstep]; [exact Hs|].
    exact (step_files_follow WRatio s2 s3 Hstep (IH Hs)). }
  split; [exact Hi|]. unfold tickets_on_disk. now rewrite Ht.
Qed.

Lemma files_follow_memory_witness :
  items_file first_opened = cached_items first_opened /\
  tickets_on_disk first_opened
  = (if dumpable (auction_tickets first_opened)
     then Holds (auction_tickets first_opened) else Corrupt).
Proof.
  apply (files_follow_memory exact_score initial first_opened).
  - split; reflexivity.
  - exact first_opened_run.
Defined.

(** X11: no step ever empties the item snapshot: once it holds an item
    it holds one after every run, and whenever it changes it becomes the
    non-empty list some reply delivered. *)
Theorem cache_never_emptied (WRatio : string -> string -> Q) (s s' : State) :
  run WRatio s s' ->
  (cached_items s <> [] -> cached_items s' <> []) /\
  (cached_items s' = cached_items s \/
   exists reply, cached_items s' = fetch_items_from_api reply /\ cached_items s' <> []).
Proof.
  induction 1 as [|s1 s2 s3 _ [IH1 IH2] Hstep]; [auto|].
  destruct (step_cached_items WRatio s2 s3 Hstep) as [E | (reply & E & Hne)].
  - rewrite E. auto.
  - split; [auto|]. right. eauto.
Qed.

Lemma cache_never_emptied_witness : cached_items first_opened <> [].
Proof.
  apply (cache_never_emptied exact_score started first_opened).
  - eapply run_step; [eapply run_step; [eapply run_step; [apply run_nil|]|]|].
    + apply (step_setup_ticket_panel exact_score as_admin started).
    + apply (step_create_auction exact_score as_admin posted).
    + apply (step_submit exact_score admin_form as_admin (Ok 501) commanded).
      intros c _. apply commanded_no_channel.
  - discriminate.
Defined.

(** ** Refreshes one after another *)

Lemma update_items_cache_cases reply s :
  fetch_items_from_api reply = [] /\ update_items_cache reply s = s \/
  fetch_items_from_api reply <> [] /\
  update_items_cache reply s
  = save_items (with_cached_items (fetch_items_from_api reply) s).
Proof.
  unfold update_items_cache. destruct (fetch_items_from_api reply); [left | right]; auto.
Qed.

(** X12: of several refreshes the last successful one decides: a reply
    applied twice is applied once, a failure after a success keeps what
    the success brought, and a success wipes out whatever came before. *)
Theorem refreshes_compose (reply1 reply2 : api_reply) (s : State) :
  update_items_cache reply1 (update_items_cache reply1 s) = update_items_cache reply1 s /\
  (fetch_items_from_api reply2 = [] ->
   update_items_cache reply2 (update_items_cache reply1 s) = update_items_cache reply1 s) /\
  (fetch_items_from_api reply2 <> [] ->
   update_items_cache reply2 (update_items_cache reply1 s) = update_items_cache reply2 s).
Proof.
  split; [|split].
  - destruct (update_items_cache_cases reply1 s) as [[E ->] | [Hne ->]].
    + destruct (update_items_cache_cases reply1 s) as [[_ ->] | [Hne _]]; congruence.
    + destruct (update_items_cache_cases reply1
                  (save_items (with_cached_items (fetch_items_from_api reply1) s)))
        as [[E _] | [_ ->]]; [congruence | reflexivity].
  - intros E. unfold update_items_cache at 1. now rewrite E.
  - intros Hne.
    destruct (update_items_cache_cases reply2 (update_items_cache reply1 s))
      as [[E _] | [_ ->]]; [congruence|].
    destruct (update_items_cache_cases reply2 s) as [[E _] | [_ ->]]; [congruence|].
    destruct (update_items_cache_cases reply1 s) as [[_ ->] | [_ ->]]; reflexivity.
Qed.

Lemma refreshes_compose_witness :
  update_items_cache NotJson
    (update_items_cache (JsonObject true (BodyList [Entry pebble])) started)
  = update_items_cache (JsonObject true (BodyList [Entry pebble])) started /\
  update_items_cache (JsonObject true (BodyList [Entry pebble]))
    (update_items_cache (JsonObject true (BodyList (map Entry catalog))) started)
  = update_items_cache (JsonObject true (BodyList [Entry pebble])) started.
Proof.
  split.
  - apply (refreshes_compose (JsonObject true (BodyList [Entry pebble])) NotJson started).
    reflexivity.
  - apply (refreshes_compose (JsonObject true (BodyList (map Entry catalog)))
             (JsonObject true (BodyList [Entry pebble])) started).
    discriminate.
Defined.

(** ** What a lookup can return *)

Lemma names_raise (entries : list json_entry) e :
  names entries = Raise e ->
  exists k,
    (entries !! k = Some NotADict /\ e = TypeError \/
     entries !! k = Some Nameless /\ e = KeyError) /\
    forall j, (j < k)%nat -> exists item, entries !! j = Some (Entry item).
Proof.
  induction entries as [|entry rest IH]; [discriminate|].
  cbn [names]. destruct entry as [item| |]; cbn [entry_name bind].
  - destruct (names rest) as [l|e'] eqn:E; cbn [bind]; [discriminate|].
    intros [= ->]. destruct (IH eq_refl) as (k & Hk & Hbefore).
    exists (S k). split; [exact Hk|].
    intros [|j] Hj; [eexists; reflexivity|]. apply Hbefore. lia.
  - intros [= <-]. exists 0%nat. split; [left; split; reflexivity|]. intros j Hj. lia.
  - intros [= <-]. exists 0%nat. split; [right; split; reflexivity|]. intros j Hj. lia.
Qed.

(** X13: whatever the scorer, an item the lookup returns from a snapshot
    of catalog entries is an item of the snapshot with a non-empty name
    whose score reaches the threshold and is the highest, the first such;
    the lookup returns nothing only on an empty snapshot, on a winner
    with an empty name, or on a winning score below the threshold; and on
    any snapshot it raises only at the first element that has no name,
    [TypeError] for an element that is no object and [KeyError] for an
    object without a name. *)
Theorem fuzzy_search_item_sound (WRatio : string -> string -> Q) (query : string)
    (items : list Item.t) (threshold : Q) :
  (forall item,
     fuzzy_search_item WRatio query (map Entry items) threshold = Ok (Some item) ->
     Item.name item <> EmptyString /\
     (threshold <= WRatio query (Item.name item))%Q /\
     exists k, items !! k = Some item /\ is_best WRatio query (map Item.name items) k) /\
  (fuzzy_search_item WRatio query (map Entry items) threshold = Ok None ->
   items = [] \/
   exists k item,
     items !! k = Some item /\ is_best WRatio query (map Item.name items) k /\
     (Item.name item = EmptyString \/ (WRatio query (Item.name item) < threshold)%Q)) /\
  (forall (entries : list json_entry) e,
     fuzzy_search_item WRatio query entries threshold = Raise e ->
     exists k,
       (entries !! k = Some NotADict /\ e = TypeError \/
        entries !! k = Some Nameless /\ e = KeyError) /\
       forall j, (j < k)%nat -> exists item, entries !! j = Some (Entry item)).
Proof.
  assert (forall (entries : list json_entry) e,
            fuzzy_search_item WRatio query entries threshold = Raise e ->
            names entries = Raise e) as Hraise.
  { intros entries e. unfold fuzzy_search_item.
    destruct entries as [|entry rest]; [discriminate|].
    destruct (names (entry :: rest)) as [l|e'] eqn:E; cbn [bind]; [|congruence].
    repeat case_match; discriminate. }
  cut ((forall item,
          fuzzy_search_item WRatio query (map Entry items) threshold = Ok (Some item) ->
          Item.name item <> EmptyString /\
          (threshold <= WRatio query (Item.name item))%Q /\
          exists k, items !! k = Some item /\ is_best WRatio query (map Item.name items) k) /\
       (fuzzy_search_item WRatio query (map Entry items) threshold = Ok None ->
        items = [] \/
        exists k item,
          items !! k = Some item /\ is_best WRatio query (map Item.name items) k /\
          (Item.name item = EmptyString \/ (WRatio query (Item.name item) < threshold)%Q))).
  { intros [H1 H2]. split; [exact H1|]. split; [exact H2|].
    intros entries e H. exact (names_raise _ _ (Hraise _ _ H)). }
  clear Hraise.
  destruct items as [|i0 rest] eqn:Hitems.
  { split; [discriminate | auto]. }
  rewrite <- Hitems.
  destruct (extractOne_spec WRatio query (map Item.name items)) as (name & k & Hex & Hk & Hbest).
  { subst. discriminate. }
  rewrite list_lookup_fmap in Hk.
  destruct (items !! k) as [item|] eqn:Hitem; [|discriminate].
  injection Hk as <-.
  assert (fuzzy_search_item WRatio query (map Entry items) threshold =
          Ok (if negb (String.eqb (Item.name item) EmptyString)
                 && Qle_bool threshold (WRatio query (Item.name item))
              then Some item else None)) as ->.
  { rewrite fuzzy_search_item_entries. rewrite Hitems at 1. rewrite Hex.
    destruct (_ && _); [now rewrite Hitem | reflexivity]. }
  destruct (String.eqb_spec (Item.name item) EmptyString) as [Hname|Hname]; cbn [negb andb].
  - split; [discriminate|]. intros _. right. eauto 6.
  - destruct (Qle_bool threshold (WRatio query (Item.name item))) eqn:Hq.
    + split; [|discriminate]. intros ? [= <-].
      split; [exact Hname|]. split; [now apply Qle_bool_iff | eauto].
    + split; [discriminate|]. intros _. right. exists k, item.
      split; [exact Hitem|]. split; [exact Hbest|]. right.
      apply Qnot_le_lt. intros Hle. apply Qle_bool_iff in Hle. congruence.
Qed.

Lemma fuzzy_search_item_sound_witness :
  fuzzy_search_item exact_score "Pebble" (map Entry catalog) (65 # 1) = Ok (Some pebble) /\
  Item.name pebble <> EmptyString /\
  (65 # 1 <= exact_score "Pebble" (Item.name pebble))%Q /\
  exists k, catalog !! k = Some pebble /\
            is_best exact_score "Pebble" (map Item.name catalog) k.
Proof.
  assert (fuzzy_search_item exact_score "Pebble" (map Entry catalog) (65 # 1)
          = Ok (Some pebble)) as H
    by (vm_compute; reflexivity).
  split; [exact H|].
  exact (proj1 (fuzzy_search_item_sound exact_score "Pebble" catalog (65 # 1)) pebble H).
Defined.

(** ** Configuring a guild *)

Lemma get_config_spec gid s :
  let l := fst (get_config gid s) in
  let s1 := snd (get_config gid s) in
  guild_configs s1 = guild_configs s /\ auction_tickets s1 = auction_tickets s /\
  channels s1 = channels s /\ timers s1 = timers s /\ cached_items s1 = cached_items s /\
  default 0 (Config.ticket_counter (heap s1 !!! l)) = guild_ticket_counter gid s.
Proof.
  unfold get_config, guild_ticket_counter.
  destruct (guild_configs s !! gid); simpl; repeat split.
  now rewrite lookup_total_insert_eq.
Qed.

Lemma auction_config_admin is_category i category_id staff_role s :
  administrator (user i) = true ->
  let l := fst (get_config (guild_id i) s) in
  let s1 := snd (get_config (guild_id i) s) in
  let s' := snd (AuctionCog.auction_config is_category i category_id staff_role s) in
  fst (AuctionCog.auction_config is_category i category_id staff_role s) = Ok ConfigUpdated /\
  heap s' !!! l = configured is_category category_id staff_role (heap s1 !!! l) /\
  guild_configs s' = <[guild_id i := l]> (guild_configs s) /\
  config_file s' !! guild_id i = Some (heap s' !!! l) /\
  auction_tickets s' = auction_tickets s /\ channels s' = channels s /\
  timers s' = timers s /\ cached_items s' = cached_items s.
Proof.
  intros Hadmin. unfold AuctionCog.auction_config. rewrite Hadmin. cbn [negb].
  pose proof (get_config_spec (guild_id i) s) as (Hg & Ht & Hc & Htm & Hci & _).
  destruct (get_config (guild_id i) s) as [l s1]. cbn [fst snd] in *.
  unfold configured.
  repeat case_match; simplify_eq/=;
    rewrite ?lookup_total_insert_eq in *;
    rewrite ?lookup_fmap, ?lookup_insert_eq, ?lookup_total_insert_eq; simpl;
    rewrite ?lookup_total_insert_eq, ?Hg; repeat split; try congruence;
    cbn [Config.staff_roles Config.set_category_id] in *; congruence.
Qed.

Lemma configured_counter is_category category_id staff_role config :
  Config.ticket_counter (configured is_category category_id staff_role config)
  = Config.ticket_counter config.
Proof. unfold configured. repeat case_match; reflexivity. Qed.

Lemma existsb_eqb_In x l : existsb (Z.eqb x) l = true <-> In x l.
Proof.
  rewrite existsb_exists. split.
  - intros (y & Hy & ->%Z.eqb_eq). exact Hy.
  - intros H. exists x. split; [exact H | apply Z.eqb_refl].
Qed.

Lemma configured_staff is_category category_id staff_role config :
  let config' := configured is_category category_id staff_role config in
  (forall r, staff_role = Some r -> In (role_id r) (Config.staff_roles config')) /\
  (forall x, In x (Config.staff_roles config') <->
             In x (Config.staff_roles config) \/
             exists r, staff_role = Some r /\ x = role_id r) /\
  (NoDup (Config.staff_roles config) -> NoDup (Config.staff_roles config')).
Proof.
  unfold configured.
  set (config1 := match category_id with None => config | _ => _ end).
  assert (Config.staff_roles config1 = Config.staff_roles config) as E
    by (unfold config1; repeat case_match; reflexivity).
  destruct staff_role as [role|]; cbn zeta.
  - destruct (existsb (Z.eqb (role_id role)) (Config.staff_roles config1)) eqn:Hex.
    + apply existsb_eqb_In in Hex. rewrite E in *. split; [|split].
      * intros r [= <-]. exact Hex.
      * intros x. split; [auto|]. intros [H | (r & [= <-] & ->)]; assumption.
      * trivial.
    + assert (~ In (role_id role) (Config.staff_roles config)) as Hnew.
      { rewrite <- E. intros H%existsb_eqb_In. congruence. }
      simpl. rewrite E. split; [|split].
      * intros r [= <-]. apply in_or_app. right. now left.
      * intros x. rewrite in_app_iff. simpl. split.
        -- intros [H | [<- | []]]; [auto | eauto].
        -- intros [H | (r & [= <-] & ->)]; auto.
      * intros Hnd. apply NoDup_app. split; [exact Hnd|]. split.
        -- intros x Hx Hin. apply list_elem_of_singleton in Hin as ->.
           apply Hnew. now apply list_elem_of_In.
        -- apply NoDup_singleton.
  - rewrite E. split; [discriminate|]. split; [|trivial].
    intros x. split; [auto|]. intros [H | (r & [=] & _)]. exact H.
Qed.

Lemma configured_idem is_category category_id staff_role config :
  configured is_category category_id staff_role
    (configured is_category category_id staff_role config)
  = configured is_category category_id staff_role config.
Proof.
  destruct config as [cat roles counter].
  unfold configured.
  destruct category_id as [[|c text]|];
    [| destruct (Str.int_of_str (String c text)) as [k|];
       [destruct (is_category k)|] |];
    destruct staff_role as [role|]; simpl;
    try reflexivity;
    (destruct (existsb (Z.eqb (role_id role)) roles) eqn:Hex; simpl;
     [rewrite Hex; reflexivity|];
     rewrite existsb_app; simpl; rewrite Z.eqb_refl, orb_true_r; reflexivity).
Qed.

(** X14: for an administrator, [auction_config] stores the guild's
    dictionary (a new one with the defaults when the guild had none) and
    saves it; the ticket counter is left alone; a given staff role is in
    the list afterwards, no role is dropped and none is listed twice if
    none was; running the same command again changes nothing in the
    dictionary; tickets and channels are untouched. *)
Theorem auction_config_spec (is_category : Z -> bool) (i : Interaction)
    (category_id : option string) (staff_role : option Role) (s : State) :
  administrator (user i) = true ->
  let l := fst (get_config (guild_id i) s) in
  let before := heap (snd (get_config (guild_id i) s)) !!! l in
  let s' := snd (AuctionCog.auction_config is_category i category_id staff_role s) in
  let after := heap s' !!! l in
  fst (AuctionCog.auction_config is_category i category_id staff_role s) = Ok ConfigUpdated /\
  guild_configs s' !! guild_id i = Some l /\
  config_file s' !! guild_id i = Some after /\
  guild_ticket_counter (guild_id i) s' = guild_ticket_counter (guild_id i) s /\
  (forall r, staff_role = Some r -> In (role_id r) (Config.staff_roles after)) /\
  (forall x, In x (Config.staff_roles before) -> In x (Config.staff_roles after)) /\
  (NoDup (Config.staff_roles before) -> NoDup (Config.staff_roles after)) /\
  heap (snd (AuctionCog.auction_config is_category i category_id staff_role s')) !!! l = after /\
  auction_tickets s' = auction_tickets s /\ channels s' = channels s.
Proof.
  intros Hadmin l before s' after.
  destruct (auction_config_admin is_category i category_id staff_role s Hadmin)
    as (Hr & Hafter & Hg & Hfile & Ht & Hc & _ & _).
  fold l s' in Hafter, Hg, Hfile, Ht, Hc. fold before in Hafter. fold after in Hafter, Hfile.
  assert (guild_configs s' !! guild_id i = Some l) as Hstored
    by (rewrite Hg; apply lookup_insert_eq).
  destruct (configured_staff is_category category_id staff_role before) as (Hin & Hall & Hnd).
  split; [exact Hr|]. split; [exact Hstored|]. split; [exact Hfile|].
  split; [|split; [|split; [|split; [|split; [|split]]]]].
  - unfold guild_ticket_counter at 1. rewrite Hstored. fold after.
    rewrite Hafter, configured_counter.
    apply (get_config_spec (guild_id i) s).
  - rewrite Hafter. exact Hin.
  - rewrite Hafter. intros x Hx. apply Hall. now left.
  - rewrite Hafter. exact Hnd.
  - destruct (auction_config_admin is_category i category_id staff_role s' Hadmin)
      as (_ & Hagain & _).
    rewrite (get_config_stored _ _ _ Hstored) in Hagain. cbn [fst snd] in Hagain.
    rewrite Hagain. fold after. rewrite Hafter. apply configured_idem.
  - exact Ht.
  - exact Hc.
Qed.

Lemma auction_config_spec_witness :
  guild_ticket_counter guild
    (snd (AuctionCog.auction_config (fun _ => false) as_admin (Some "12x")
            (Some (Build_Role 40 true)) first_opened)) = 1 /\
  In 40 (Config.staff_roles
           (heap (snd (AuctionCog.auction_config (fun _ => false) as_admin (Some "12x")
                         (Some (Build_Role 40 true)) first_opened)) !!! 2%positive)).
Proof.
  destruct (auction_config_spec (fun _ => false) as_admin (Some "12x")
              (Some (Build_Role 40 true)) first_opened)
    as (_ & _ & _ & Hcounter & Hin & _).
  - reflexivity.
  - split.
    + etransitivity; [exact Hcounter | vm_compute; reflexivity].
    + assert (fst (get_config (guild_id as_admin) first_opened) = 2%positive) as <-
        by (vm_compute; reflexivity).
      now apply (Hin (Build_Role 40 true)).
Defined.

(** ** Colour names *)

Lemma dict_get_absent {V} (mapping : list (string * V)) key d :
  ~ In key (map fst mapping) -> dict_get mapping key d = d.
Proof.
  induction mapping as [|[k v] rest IH]; [reflexivity|]. simpl.
  intros Hn. destruct (String.eqb_spec k key) as [->|_]; [tauto|]. apply IH. tauto.
Qed.

(** X15: an ASCII colour name is looked up without regard to letter
    case; each of the listed names gives its own colour or style, and any
    other ASCII text gives the fallback, blue for the embed and success
    for the button. *)
Theorem colour_names_spec (colour_str : string) :
  all_chars is_ascii colour_str = true ->
  map_embed_color (Str.lower colour_str) = map_embed_color colour_str /\
  map_button_colour (Str.lower colour_str) = map_button_colour colour_str /\
  (forall name colour, In (name, colour) embed_colors ->
     Str.lower colour_str = name -> map_embed_color colour_str = colour) /\
  (forall name style, In (name, style) button_styles ->
     Str.lower colour_str = name -> map_button_colour colour_str = style) /\
  (~ In (Str.lower colour_str) (map fst embed_colors) ->
   map_embed_color colour_str = Color.blue) /\
  (~ In (Str.lower colour_str) (map fst button_styles) ->
   map_button_colour colour_str = ButtonStyle.success).
Proof.
  intros _. unfold map_embed_color, map_button_colour. rewrite lower_idem.
  split; [reflexivity|]. split; [reflexivity|].
  split; [|split; [|split]].
  - intros name colour Hin ->. simpl in Hin.
    repeat (destruct Hin as [[= <- <-] | Hin]; [reflexivity|]). destruct Hin.
  - intros name style Hin ->. simpl in Hin.
    repeat (destruct Hin as [[= <- <-] | Hin]; [reflexivity|]). destruct Hin.
  - apply dict_get_absent.
  - apply dict_get_absent.
Qed.

Lemma colour_names_spec_witness :
  map_embed_color "GoLd" = Color.gold /\ map_button_colour "GoLd" = ButtonStyle.success.
Proof.
  destruct (colour_names_spec "GoLd") as (_ & _ & Hknown & _ & _ & Hother);
    [reflexivity|].
  split.
  - apply (Hknown "gold"%string Color.gold); [simpl; tauto | reflexivity].
  - apply Hother. vm_compute. intuition discriminate.
Defined.

(** ** Customizing the panel *)

Lemma customized_idem given template :
  customized given (customized given template) = customized given template.
Proof.
  destruct given as [g1 g2 g3 g4 g5 g6 g7], template. unfold customized. cbn.
  f_equal; match goal with |- context [match ?g with _ => _ end] => now destruct g end.
Qed.

Lemma customized_assoc later given template :
  customized later (customized given template) = customized (customized later given) template.
Proof.
  destruct later as [l1 l2 l3 l4 l5 l6 l7], given as [g1 g2 g3 g4 g5 g6 g7], template.
  unfold customized. cbn.
  f_equal; match goal with |- context [match ?l with _ => _ end] => now destruct l end.
Qed.

(** X16: for an administrator, [customize_auc_panel] writes the template
    it loaded (the defaults when the file is missing or corrupt) with the
    given fields replaced and the others kept; the panel posted next shows
    a given title and colour; the same command again changes nothing; and
    of two commands the later wins field by field. *)
Theorem customize_auc_panel_spec (i : Interaction) (given : Template.t)
    (file : json_file Template.t) :
  administrator (user i) = true ->
  let file' := snd (customize_auc_panel i given file) in
  fst (customize_auc_panel i given file) = TemplateUpdated /\
  file' = Holds (customized given (load_auc_panel_template file)) /\
  (file = Absent \/ file = Corrupt ->
   file' = Holds (customized given DEFAULT_PANEL_TEMPLATE)) /\
  (forall text, Template.title given = Some text ->
     exists embed button,
       setup_ticket_panel_message i file' = PanelPosted embed button /\
       embed_title embed = text) /\
  (forall text, Template.colour given = Some text ->
     exists embed button,
       setup_ticket_panel_message i file' = PanelPosted embed button /\
       embed_color embed = map_embed_color text) /\
  (Template.footer given = None ->
   exists embed embed' button button',
     setup_ticket_panel_message i file = PanelPosted embed button /\
     setup_ticket_panel_message i file' = PanelPosted embed' button' /\
     embed_footer embed' = embed_footer embed) /\
  customize_auc_panel i given file' = (TemplateUpdated, file') /\
  (forall later,
     snd (customize_auc_panel i later file')
     = snd (customize_auc_panel i (customized later given) file)).
Proof.
  intros Hadmin. unfold customize_auc_panel, setup_ticket_panel_message.
  rewrite Hadmin. cbn [negb fst snd].
  unfold save_auc_panel_template, save_json.
  change (load_auc_panel_template (Holds ?t)) with t.
  split; [reflexivity|]. split; [reflexivity|]. split.
  { intros [-> | ->]; reflexivity. }
  split.
  { intros text Ht. eexists _, _. split; [reflexivity|].
    unfold panel_embed, customized. simpl. now rewrite Ht. }
  split.
  { intros text Ht. eexists _, _. split; [reflexivity|].
    unfold panel_embed, customized. simpl. now rewrite Ht. }
  split.
  { intros Hf. eexists _, _, _, _. split; [reflexivity|]. split; [reflexivity|].
    unfold panel_embed, customized. simpl. now rewrite Hf. }
  split.
  - now rewrite customized_idem.
  - intros later. now rewrite customized_assoc.
Qed.

Lemma customize_auc_panel_spec_witness :
  exists embed button,
    setup_ticket_panel_message as_admin (snd (customize_auc_panel as_admin new_look Absent))
    = PanelPosted embed button /\
    embed_title embed = "Auctions"%string.
Proof.
  destruct (customize_auc_panel_spec as_admin new_look Absent) as (_ & _ & _ & Ht & _).
  - reflexivity.
  - apply (Ht "Auctions"%string). reflexivity.
Defined.

(** ** Who may see a new ticket channel *)

Lemma overwrites_fold (get_role : Z -> bool) (staff_role_ids : list Z) :
  forall (acc : gmap (Z + Z) Overwrite.t) k,
    foldl (fun (acc : gmap (Z + Z) Overwrite.t) (r_id : Z) =>
             if get_role r_id then <[role_key r_id := Overwrite.staff_access]> acc else acc)
          acc staff_role_ids !! k
    = if granted get_role staff_role_ids k then Some Overwrite.staff_access else acc !! k.
Proof.
  induction staff_role_ids as [|x rest IH]; intros acc k.
  - destruct k; reflexivity.
  - cbn [foldl]. rewrite IH.
    destruct k as [r|u]; cbn [granted existsb].
    + destruct (granted get_role rest (inl r)) eqn:Hrest.
      * cbn [granted] in Hrest. rewrite Hrest, orb_true_r. reflexivity.
      * cbn [granted] in Hrest. rewrite Hrest, orb_false_r.
        destruct (get_role x); [|now rewrite andb_false_r].
        rewrite andb_true_r. unfold role_key.
        destruct (Z.eqb_spec x r) as [->|Hne].
        -- apply lookup_insert_eq.
        -- apply lookup_insert_ne. congruence.
    + destruct (get_role x); [|reflexivity].
      apply lookup_insert_ne. discriminate.
Qed.

(** X17: in the overwrites of a new ticket channel the requester has
    view, send, history and command access; every configured staff role
    the guild still has gets the same and the right to manage the channel,
    a configured id the guild no longer has gets nothing; the default
    role is denied the view unless it is itself a configured staff role,
    in which case everybody gets staff access; nobody else is listed. *)
Theorem ticket_channel_overwrites (default_role : Z) (get_role : Z -> bool)
    (i : Interaction) (staff_role_ids : list Z) :
  let ow := overwrites default_role get_role i staff_role_ids in
  ow !! member_key (id (user i)) = Some Overwrite.member_access /\
  (forall r, In r staff_role_ids -> get_role r = true ->
     ow !! role_key r = Some Overwrite.staff_access) /\
  (forall r, r <> default_role -> get_role r = false -> ow !! role_key r = None) /\
  (ow !! role_key default_role =
   Some (if existsb (fun x : Z => (x =? default_role) && get_role x) staff_role_ids
         then Overwrite.staff_access else Overwrite.hidden)) /\
  (forall k v, ow !! k = Some v ->
     k = member_key (id (user i)) \/ k = role_key default_role \/
     exists r, k = role_key r /\ In r staff_role_ids /\ get_role r = true /\
               v = Overwrite.staff_access).
Proof.
  intros ow. unfold ow, overwrites.
  split; [|split; [|split; [|split]]].
  - rewrite overwrites_fold. cbn [granted member_key]. apply lookup_insert_eq.
  - intros r Hin Hrole. rewrite overwrites_fold.
    replace (granted get_role staff_role_ids (role_key r)) with true; [reflexivity|].
    symmetry. apply existsb_exists. exists r. split; [exact Hin|].
    now rewrite Z.eqb_refl, Hrole.
  - intros r Hne Hrole. rewrite overwrites_fold.
    replace (granted get_role staff_role_ids (role_key r)) with false.
    + rewrite lookup_insert_ne by discriminate.
      rewrite lookup_insert_ne by (unfold role_key; congruence). apply lookup_empty.
    + symmetry. apply not_true_is_false. intros (x & _ & Hx)%existsb_exists.
      apply andb_true_iff in Hx as [->%Z.eqb_eq Hx]. congruence.
  - rewrite overwrites_fold. cbn [granted role_key].
    destruct (existsb _ staff_role_ids); [reflexivity|].
    rewrite lookup_insert_ne by discriminate. now rewrite lookup_insert_eq.
  - intros k v. rewrite overwrites_fold.
    destruct (granted get_role staff_role_ids k) eqn:Hg.
    + intros [= <-]. right. right. destruct k as [r|u]; [|discriminate].
      cbn [granted] in Hg. apply existsb_exists in Hg as (x & Hin & Hx).
      apply andb_true_iff in Hx as [->%Z.eqb_eq Hx]. exists r. auto.
    + intros Hk. apply lookup_insert_Some in Hk as [[<- _] | [_ Hk]]; [now left|].
      apply lookup_insert_Some in Hk as [[<- _] | [_ Hk]]; [right; now left|].
      now rewrite lookup_empty in Hk.
Qed.

Lemma ticket_channel_overwrites_witness :
  overwrites guild (fun r => r =? 40) as_alice [40; 41] !! role_key 40
  = Some Overwrite.staff_access /\
  overwrites guild (fun r => r =? 40) as_alice [40; 41] !! role_key 41 = None.
Proof.
  destruct (ticket_channel_overwrites guild (fun r => r =? 40) as_alice [40; 41])
    as (_ & Hstaff & Hgone & _).
  split.
  - apply Hstaff; [simpl; tauto | reflexivity].
  - apply Hgone; [discriminate | reflexivity].
Defined.

(** ** Starting again *)






(** ** Channel names *)

Lemma replace_char_app c d s1 s2 :
  Fmt.replace_char c d (s1 +:+ s2) = Fmt.replace_char c d s1 +:+ Fmt.replace_char c d s2.
Proof. induction s1 as [|x s1 IH]; simpl; [reflexivity | now rewrite IH]. Qed.

Lemma safe_name_app s1 s2 : safe_name (s1 +:+ s2) = safe_name s1 +:+ safe_name s2.
Proof. unfold safe_name. now rewrite lower_app, replace_char_app. Qed.

Lemma safe_char_spec (c : ascii) :
  let x := if Ascii.eqb (Str.lower_char c) " "%char then "-"%char else Str.lower_char c in
  x <> " "%char /\ is_upper x = false /\
  (if Ascii.eqb (Str.lower_char x) " "%char then "-"%char else Str.lower_char x) = x.
Proof.
  destruct c as [[] [] [] [] [] [] [] []]; vm_compute;
    (split; [discriminate | split; reflexivity]).
Qed.

Lemma safe_name_chars name c :
  In c (list_ascii_of_string (safe_name name)) -> c <> " "%char /\ is_upper c = false.
Proof.
  unfold safe_name. induction name as [|x name IH]; simpl; [intros []|].
  intros [<- | Hin]; [|exact (IH Hin)].
  destruct (safe_char_spec x) as (H1 & H2 & _). exact (conj H1 H2).
Qed.

Lemma safe_name_idem name : safe_name (safe_name name) = safe_name name.
Proof.
  unfold safe_name. induction name as [|x name IH]; simpl; [reflexivity|].
  destruct (safe_char_spec x) as (_ & _ & H3). cbv zeta in H3.
  rewrite H3. f_equal. exact IH.
Qed.

Lemma length_app s1 s2 :
  String.length (s1 +:+ s2) = (String.length s1 + String.length s2)%nat.
Proof. induction s1 as [|x s1 IH]; simpl; [reflexivity | now rewrite IH]. Qed.

(** X19: the part of a channel name made from the user's name holds no
    space and no ASCII capital letter, and making it again changes
    nothing; so names that differ only in letter case, or in a space
    against a hyphen, get the same ticket channel name and the same
    closed name.  A closed channel whose owner is still a member is never
    named as one whose owner has left. *)
Theorem channel_names_spec (name discriminator : string) :
  (forall c, In c (list_ascii_of_string (safe_name name)) ->
             c <> " "%char /\ is_upper c = false) /\
  channel_name (safe_name name) discriminator = channel_name name discriminator /\
  channel_name (Str.lower name) discriminator = channel_name name discriminator /\
  (forall a b, name = a +:+ " " +:+ b ->
     channel_name (a +:+ "-" +:+ b) discriminator = channel_name name discriminator /\
     closed_name (Some (a +:+ "-" +:+ b)) = closed_name (Some name)) /\
  closed_name (Some name) <> closed_name None.
Proof.
  split; [apply safe_name_chars|].
  split; [unfold channel_name; now rewrite safe_name_idem|].
  split.
  { unfold channel_name, safe_name. now rewrite lower_idem. }
  split.
  { intros a b ->. unfold channel_name, closed_name.
    rewrite !safe_name_app. split; reflexivity. }
  unfold closed_name. intros H.
  apply (f_equal String.length) in H. rewrite !length_app in H.
  cbn [String.length] in H. lia.
Qed.

Lemma channel_names_spec_witness :
  channel_name "John-Doe" "0042" = channel_name "John Doe" "0042" /\
  closed_name (Some "John-Doe") = closed_name (Some "John Doe").
Proof.
  exact (proj1 (proj2 (proj2 (proj2 (channel_names_spec "John Doe" "0042"))))
               "John" "Doe" eq_refl).
Defined.
